(** * FastIndex: a cache- and SIMD-aware static index over a sorted table

    Shallow embedding of [src/static_index/fast_index.h] and the
    properties of its geometry, tree builder, vectorised branch selector
    and point / range lookups.

    Conventions of the embedding:
    - [size_t] values are integers in [0, 2^64); every [size_t] operation
      that can wrap is written with [size_t_of];
    - [int] values are integers in [-2^31, 2^31); narrowing conversions are
      written with [int_of], and signed arithmetic that leaves the range is
      undefined behaviour ([int_arith]);
    - keys are the values of a 4-byte integer type [KeyT], signed or
      unsigned: the scalar comparisons of the code compare these values,
      while [_mm_set1_epi32] and [_mm_cmpgt_epi32] read the key and the
      fences as signed 32-bit integers ([int_of]); a statement that needs
      keys whose signed reading is the key itself says so with [int_key];
      row references are [Uint64] values;
    - arrays are lists indexed from 0; an access outside the array is
      undefined behaviour;
    - a C++ call either returns, trips a fatal assertion, or has undefined
      behaviour: see [outcome]. *)

From Stdlib Require Import ZArith Lia Bool Sorted.
From stdpp Require Import base list.

Local Open Scope Z_scope.

(** ** Outcomes *)

Inductive outcome (A : Type) : Type :=
| Ok (a : A)   (* the call returns normally *)
| Fatal        (* an ASSERT / assert fired: the process is stopped *)
| Undefined    (* undefined behaviour: access out of bounds, signed
                  overflow, division by zero, float conversion out of range *)
| OutOfFuel.   (* the loop budget of the embedding ran out (never happens
                  with the budgets used below, see [find_never_out_of_fuel]) *)

Arguments Ok {A} a.
Arguments Fatal {A}.
Arguments Undefined {A}.
Arguments OutOfFuel {A}.

Definition bind {A B : Type} (m : outcome A) (k : A -> outcome B) : outcome B :=
  match m with
  | Ok a => k a
  | Fatal => Fatal
  | Undefined => Undefined
  | OutOfFuel => OutOfFuel
  end.

Definition outcome_map {A B : Type} (f : A -> B) (m : outcome A) : outcome B :=
  bind m (fun a => Ok (f a)).

Notation "'let*' x ':=' c 'in' k" := (bind c (fun x => k))
  (at level 10, x name, c at level 100, k at level 200).
Notation "'let*' ' p ':=' c 'in' k" := (bind c (fun x => match x with p => k end))
  (at level 10, p pattern, c at level 100, k at level 200).

(** Modelled from the spec: the [ASSERT(cond, msg)] macro is defined outside
    [fast_index.h]; the specification classifies every failed assertion as
    fatal and not recoverable.  The standard [assert] of [find_range] is
    modelled the same way (a build without NDEBUG). *)
Definition ASSERT (cond : bool) : outcome unit :=
  if cond then Ok tt else Fatal.

(** [for (size_t i = from; i < from + n; ++i) s = body(i, s)] *)
Fixpoint for_loop {S : Type} (n : nat) (i : Z) (body : Z -> S -> outcome S) (s : S)
  : outcome S :=
  match n with
  | O => Ok s
  | Datatypes.S n' => let* s' := body i s in for_loop n' (i + 1) body s'
  end.

(** ** Machine integers *)

Module Machine.

Definition size_t_of (x : Z) : Z := x mod 2 ^ 64.

Definition int_of (x : Z) : Z := (x + 2 ^ 31) mod 2 ^ 32 - 2 ^ 31.

(** Result of an [int] addition or subtraction: undefined on overflow. *)
Definition int_arith (x : Z) : outcome Z :=
  if (- 2 ^ 31 <=? x) && (x <? 2 ^ 31) then Ok x else Undefined.

(** [size_t] division and remainder: undefined for a zero divisor. *)
Definition udiv (a b : Z) : outcome Z :=
  if b =? 0 then Undefined else Ok (a / b).

Definition umod (a b : Z) : outcome Z :=
  if b =? 0 then Undefined else Ok (a mod b).

(** [size_t x = std::pow(2.0, e) - 1]: the power is exact in double
    precision; the subtraction is exact up to 2^53 - 1 and rounds back to
    2^e above; the conversion to [size_t] is defined only below 2^64. *)
Definition pow2_minus_one (e : Z) : outcome Z :=
  if e <=? 53 then Ok (2 ^ e - 1)
  else if e <=? 63 then Ok (2 ^ e)
  else Undefined.

(** [size_t x = std::pow(16, e)]: exact in double precision, the conversion
    is defined only below 2^64. *)
Definition pow16 (e : Z) : outcome Z :=
  if e <=? 15 then Ok (16 ^ e) else Undefined.

(** [size_t d = std::log(x) / std::log(2)]: the quotient of the two
    logarithms truncated towards zero.  The constructor only evaluates it
    at 5, 17 and 1025, where the quotient (2.32, 4.09, 10.001) is far from
    an integer, so the truncation is the integer binary logarithm. *)
Definition log2_trunc (x : Z) : Z := Z.log2 x.

(** [a[i]]: reading an array. *)
Definition at_index {A : Type} (a : list A) (i : Z) : outcome A :=
  if i <? 0 then Undefined
  else match a !! Z.to_nat i with
       | Some x => Ok x
       | None => Undefined
       end.

(** [a[i] = x]: writing an array. *)
Definition store {A : Type} (a : list A) (i : Z) (x : A) : outcome (list A) :=
  if (0 <=? i) && (i <? Z.of_nat (length a)) then Ok (<[Z.to_nat i := x]> a)
  else Undefined.

End Machine.
Import Machine.

(** ** The four 128-bit intrinsics used by the branch selector *)

Module Simd.

(** A 128-bit register as four 32-bit lanes, lane 0 first.  A lane is
    given by an integer that stands for its 32 bits: the value of a 4-byte
    integer key, signed or unsigned, as it lies in memory. *)
Record m128i : Type := lanes { lane0 : Z; lane1 : Z; lane2 : Z; lane3 : Z }.

(** [_mm_set1_epi32(int a)]: the parameter is an [int], so a key of a
    4-byte integer type is converted to [int] at the call; an unsigned key
    from 2^31 on becomes negative. *)
Definition mm_set1_epi32 (a : Z) : m128i :=
  lanes (int_of a) (int_of a) (int_of a) (int_of a).

(** Unaligned load of 16 bytes starting at [mem + pos]. *)
Definition mm_loadu_si128 (mem : list Z) (pos : Z) : outcome m128i :=
  let* a := at_index mem pos in
  let* b := at_index mem (pos + 1) in
  let* c := at_index mem (pos + 2) in
  let* d := at_index mem (pos + 3) in
  Ok (lanes a b c d).

(** Lane-wise [a > b] on the lanes read as signed 32-bit integers: all
    ones (that is -1) where it holds. *)
Definition cmpgt_lane (a b : Z) : Z := if int_of a >? int_of b then -1 else 0.

Definition mm_cmpgt_epi32 (a b : m128i) : m128i :=
  lanes (cmpgt_lane (lane0 a) (lane0 b)) (cmpgt_lane (lane1 a) (lane1 b))
        (cmpgt_lane (lane2 a) (lane2 b)) (cmpgt_lane (lane3 a) (lane3 b)).

(** Reinterpretation of the bits, no change. *)
Definition mm_castsi128_ps (a : m128i) : m128i := a.

(** Bit [i] of the result is the sign bit (bit 31) of lane [i]. *)
Definition sign_bit (x : Z) : Z := Z.b2z (Z.testbit x 31).

Definition mm_movemask_ps (a : m128i) : Z :=
  Z.lor (sign_bit (lane0 a))
    (Z.lor (Z.shiftl (sign_bit (lane1 a)) 1)
       (Z.lor (Z.shiftl (sign_bit (lane2 a)) 2)
              (Z.shiftl (sign_bit (lane3 a)) 3))).

End Simd.
Import Simd.

(** ** Data model *)

(** One record of the table: [container_[i].key_] and [container_[i].value_]. *)
Record KeyValue : Type := kv { key_ : Z; value_ : Z }.

(** The block geometry computed once by the constructor. *)
Record Geometry : Type := mkGeometry {
  simd_key_capacity_ : Z;
  simd_depth_ : Z;
  cacheline_key_capacity_ : Z;
  cacheline_depth_ : Z;
  cacheline_capacity_ : Z;
  page_key_capacity_ : Z;
  page_depth_ : Z;
  page_capacity_ : Z
}.

(** The index object: the members inherited from [BaseStaticIndex]
    ([table_ptr_], [container_], [size_]) and those of [FastIndex]. *)
Record FastIndex : Type := mkFastIndex {
  table_ptr_ : list KeyValue;
  container_ : list KeyValue;
  size_ : Z;
  num_layers_ : Z;
  key_min_ : Z;
  key_max_ : Z;
  inner_nodes_ : list Z;
  inner_size_ : Z;
  geometry_ : Geometry
}.

Definition SIMD_SIZE : Z := 16.
Definition CACHELINE_SIZE : Z := 64.
Definition PAGE_SIZE : Z := 4096.
Definition sizeof_KeyT : Z := 4.

(** ** The base class *)

(** Modelled from the spec: [base_static_index.h] is not part of the
    sources.  Its [base_reorganize] hook leaves in [container_] the records
    of the table in ascending key order and their number in [size_]; the
    order among equal keys is not specified, the model keeps the table's. *)
Fixpoint insert_sorted (r : KeyValue) (l : list KeyValue) : list KeyValue :=
  match l with
  | [] => [r]
  | x :: l' => if key_ r <=? key_ x then r :: l else x :: insert_sorted r l'
  end.

Fixpoint sort_by_key (l : list KeyValue) : list KeyValue :=
  match l with
  | [] => []
  | r :: l' => insert_sorted r (sort_by_key l')
  end.

Definition base_reorganize (idx : FastIndex) : FastIndex :=
  let c := sort_by_key (table_ptr_ idx) in
  mkFastIndex (table_ptr_ idx) c (Z.of_nat (length c)) (num_layers_ idx)
    (key_min_ idx) (key_max_ idx) (inner_nodes_ idx) (inner_size_ idx)
    (geometry_ idx).

(** Modelled from the spec: the brute-force linear scan that the lookups are
    compared with. *)
Definition scan_equal (c : list KeyValue) (key : Z) : list Z :=
  value_ <$> filter (fun r => key_ r = key) c.

Definition scan_range (c : list KeyValue) (lo hi : Z) : list Z :=
  value_ <$> filter (fun r => lo <= key_ r < hi) c.

(** ** Construction *)

(** [FastIndex(table_ptr, num_layers)].  The members that the C++
    constructor leaves uninitialised start as zero / empty here. *)
Definition FastIndex_new (table_ptr : list KeyValue) (num_layers : Z)
  : outcome FastIndex :=
  let* _ := ASSERT (sizeof_KeyT =? 4) in
  let simd_key_capacity := SIMD_SIZE / sizeof_KeyT in
  let simd_depth := log2_trunc (simd_key_capacity + 1) in
  let* simd_key_capacity := pow2_minus_one simd_depth in
  let cacheline_key_capacity := CACHELINE_SIZE / sizeof_KeyT in
  let cacheline_depth := log2_trunc (cacheline_key_capacity + 1) in
  let* r := umod cacheline_depth simd_depth in
  let* cacheline_depth :=
    if negb (r =? 0)
    then let* q := udiv cacheline_depth simd_depth in Ok (size_t_of (q * simd_depth))
    else Ok cacheline_depth in
  let* cacheline_key_capacity := pow2_minus_one cacheline_depth in
  let* r := umod cacheline_key_capacity simd_key_capacity in
  let* _ := ASSERT (r =? 0) in
  let* cacheline_capacity := udiv cacheline_key_capacity simd_key_capacity in
  let page_key_capacity := PAGE_SIZE / sizeof_KeyT in
  let page_depth := log2_trunc (page_key_capacity + 1) in
  let* r := umod page_depth cacheline_depth in
  let* '(page_depth, page_key_capacity) :=
    if negb (r =? 0)
    then let* q := udiv page_depth cacheline_depth in
         let page_depth := size_t_of (q * cacheline_depth) in
         let* page_key_capacity := pow2_minus_one page_depth in
         Ok (page_depth, page_key_capacity)
    else Ok (page_depth, page_key_capacity) in
  let* r := umod page_key_capacity cacheline_key_capacity in
  let* _ := ASSERT (r =? 0) in
  let* page_capacity := udiv page_key_capacity simd_key_capacity in
  let* r := umod num_layers cacheline_depth in
  let* _ := ASSERT (r =? 0) in
  Ok (mkFastIndex table_ptr [] 0 num_layers 0 0 [] 0
        (mkGeometry simd_key_capacity simd_depth cacheline_key_capacity
           cacheline_depth cacheline_capacity page_key_capacity page_depth
           page_capacity)).

(** ** Tree builder *)

Section Builder.

Variable idx : FastIndex.

(** [construct_simd_block(current_pos, lhs_offset, rhs_offset)], acting on
    the inner-node buffer [nodes]. *)
Definition construct_simd_block (nodes : list Z) (current_pos lhs_offset rhs_offset : Z)
  : outcome (list Z) :=
  let* _ := ASSERT (simd_key_capacity_ (geometry_ idx) =? 3) in
  let step := size_t_of (rhs_offset - lhs_offset + 1) / 4 in
  let* r := at_index (container_ idx) (size_t_of (lhs_offset + 2 * step - 1)) in
  let* nodes := store nodes (size_t_of (current_pos + 0)) (key_ r) in
  let* r := at_index (container_ idx) (size_t_of (lhs_offset + 1 * step - 1)) in
  let* nodes := store nodes (size_t_of (current_pos + 1)) (key_ r) in
  let* r := at_index (container_ idx) (size_t_of (lhs_offset + 3 * step - 1)) in
  store nodes (size_t_of (current_pos + 2)) (key_ r).

(** [construct_cacheline_block(current_pos, lhs_offset, rhs_offset)]. *)
Definition construct_cacheline_block (nodes : list Z) (current_pos lhs_offset rhs_offset : Z)
  : outcome (list Z) :=
  let* nodes := construct_simd_block nodes current_pos lhs_offset rhs_offset in
  let step := size_t_of (rhs_offset - lhs_offset + 1) / 4 in
  for_loop 4 0 (fun i nodes =>
    construct_simd_block nodes
      (size_t_of (current_pos + 3 * (i + 1)))
      (size_t_of (lhs_offset + step * i))
      (size_t_of (lhs_offset + step * (i + 1) - 1))) nodes.

(** [construct_inner_layers()], acting on the freshly zeroed buffer. *)
Definition construct_inner_layers (nodes : list Z) : outcome (list Z) :=
  let* _ := ASSERT (negb (num_layers_ idx =? 0)) in
  let* cacheline_levels := udiv (num_layers_ idx) (cacheline_depth_ (geometry_ idx)) in
  let* num_last_level_cachelines := pow16 (size_t_of (cacheline_levels - 1)) in
  let max_partitions := size_t_of (num_last_level_cachelines * 16) in
  let lhs_offset := 0 in
  let* r := umod (size_ idx) max_partitions in
  let rhs_offset := size_t_of (size_ idx - 1 - r) in
  let current_pos := 0 in
  let* nodes := construct_cacheline_block nodes current_pos lhs_offset rhs_offset in
  let current_pos := size_t_of (current_pos + 16) in
  let* '(nodes, _) :=
    for_loop (Z.to_nat (cacheline_levels - 1)) 1 (fun i '(nodes, current_pos) =>
      let* num_cachelines := pow16 i in
      let* step := udiv (size_t_of (rhs_offset - lhs_offset + 1)) num_cachelines in
      for_loop (Z.to_nat num_cachelines) 0 (fun j '(nodes, current_pos) =>
        let* nodes := construct_cacheline_block nodes current_pos
                        (size_t_of (step * j)) (size_t_of (step * (j + 1) - 1)) in
        Ok (nodes, size_t_of (current_pos + 16))) (nodes, current_pos))
      (nodes, current_pos) in
  Ok nodes.

End Builder.

(** [reorganize()]. *)
Definition reorganize (idx : FastIndex) : outcome FastIndex :=
  let idx := base_reorganize idx in
  let* inner_node_size := pow2_minus_one (num_layers_ idx) in
  let* _ := ASSERT (inner_node_size <? size_ idx) in
  let* first := at_index (container_ idx) 0 in
  let* last := at_index (container_ idx) (size_t_of (size_ idx - 1)) in
  let idx := mkFastIndex (table_ptr_ idx) (container_ idx) (size_ idx) (num_layers_ idx)
               (key_ first) (key_ last) (inner_nodes_ idx) (inner_size_ idx)
               (geometry_ idx) in
  if negb (num_layers_ idx =? 0) then
    let* num_cachelines := udiv inner_node_size (cacheline_key_capacity_ (geometry_ idx)) in
    let inner_size := size_t_of (num_cachelines * CACHELINE_SIZE) / sizeof_KeyT in
    let* nodes := construct_inner_layers idx (replicate (Z.to_nat inner_size) 0) in
    Ok (mkFastIndex (table_ptr_ idx) (container_ idx) (size_ idx) (num_layers_ idx)
          (key_min_ idx) (key_max_ idx) nodes inner_size (geometry_ idx))
  else
    Ok (mkFastIndex (table_ptr_ idx) (container_ idx) (size_ idx) (num_layers_ idx)
          (key_min_ idx) (key_max_ idx) [] (inner_size_ idx) (geometry_ idx)).

(** ** Tree lookup *)

Section Lookup.

Variable idx : FastIndex.

(** [static unsigned table[8]]: 9 stands for impossible. *)
Definition table : list Z := [0; 9; 1; 2; 9; 9; 9; 3].

(** [lookup_simd_block(key, current_pos)]: search in a simd block. *)
Definition lookup_simd_block (key : Z) (current_pos : Z) : outcome Z :=
  let xmm_key_q := mm_set1_epi32 key in
  let* xmm_tree := mm_loadu_si128 (inner_nodes_ idx) current_pos in
  let xmm_mask := mm_cmpgt_epi32 xmm_key_q xmm_tree in
  let index := mm_movemask_ps (mm_castsi128_ps xmm_mask) in
  let* branch_id := at_index table (Z.land index 7) in
  Ok branch_id.

(** [lookup_cacheline_block(key, current_pos)]: search in a cacheline block. *)
Definition lookup_cacheline_block (key : Z) (current_pos : Z) : outcome Z :=
  let* branch_id := lookup_simd_block key current_pos in
  let new_pos := size_t_of (current_pos + 3 * (branch_id + 1)) in
  let* new_branch_id := lookup_simd_block key new_pos in
  Ok (size_t_of (branch_id * 4 + new_branch_id)).

(** [find_inner_layers(key)]: the offset range, as a pair of [int]. *)
Definition find_inner_layers (key : Z) : outcome (Z * Z) :=
  if num_layers_ idx =? 0 then Ok (int_of 0, int_of (size_t_of (size_ idx - 1)))
  else
    let* cacheline_levels := udiv (num_layers_ idx) (cacheline_depth_ (geometry_ idx)) in
    let* num_last_level_cachelines := pow16 (size_t_of (cacheline_levels - 1)) in
    let max_partitions := size_t_of (num_last_level_cachelines * 16) in
    let current_pos := 0 in
    let* branch_id := lookup_cacheline_block key current_pos in
    let current_pos := size_t_of (current_pos + 16) in
    let* num_cachelines := pow16 1 in
    let* '(branch_id, current_pos, num_cachelines) :=
      for_loop (Z.to_nat (cacheline_levels - 1)) 1
        (fun i '(branch_id, current_pos, num_cachelines) =>
           let* new_branch_id :=
             lookup_cacheline_block key (size_t_of (current_pos + branch_id * 16)) in
           let branch_id := size_t_of (branch_id * 16 + new_branch_id) in
           let current_pos := size_t_of (current_pos + 16 * num_cachelines) in
           let* num_cachelines := pow16 (i + 1) in
           Ok (branch_id, current_pos, num_cachelines))
        (branch_id, current_pos, num_cachelines) in
    let lhs_offset := 0 in
    let* r := umod (size_ idx) max_partitions in
    let rhs_offset := size_t_of (size_ idx - 1 - r) in
    let* step := udiv (size_t_of (rhs_offset - lhs_offset + 1)) num_cachelines in
    if branch_id <? size_t_of (num_cachelines - 1)
    then Ok (int_of (size_t_of (branch_id * step)),
             int_of (size_t_of ((branch_id + 1) * step - 1)))
    else Ok (int_of (size_t_of (branch_id * step)),
             int_of (size_t_of (size_ idx - 1))).

(** [find_internal(key, offset_begin, offset_end)]: binary search over
    [[offset_begin, offset_end]], both ends included.  The recursion of the
    source is bounded here by [fuel]; [find_internal] supplies the width of
    the range, which is never exhausted. *)
Fixpoint find_internal_rec (fuel : nat) (key : Z) (offset_begin offset_end : Z)
  : outcome Z :=
  if offset_begin >? offset_end then Ok (size_ idx)
  else
    match fuel with
    | O => OutOfFuel
    | S fuel' =>
        let* sum := int_arith (offset_begin + offset_end) in
        let offset_lookup := Z.quot sum 2 in
        let* r := at_index (container_ idx) offset_lookup in
        let key_lookup := key_ r in
        if key =? key_lookup then Ok (size_t_of offset_lookup)
        else if key >? key_lookup then
          let* b := int_arith (offset_lookup + 1) in
          find_internal_rec fuel' key b offset_end
        else
          let* e := int_arith (offset_lookup - 1) in
          find_internal_rec fuel' key offset_begin e
    end.

Definition find_internal (key : Z) (offset_begin offset_end : Z) : outcome Z :=
  find_internal_rec (Z.to_nat (offset_end - offset_begin + 1)) key offset_begin offset_end.

(** The loop "move left" of [find]:
    [while (offset_find_lhs >= 0) { ... offset_find_lhs -= 1; }] *)
Fixpoint move_left (fuel : nat) (key : Z) (offset_find_lhs : Z) (values : list Z)
  : outcome (list Z) :=
  if offset_find_lhs >=? 0 then
    match fuel with
    | O => OutOfFuel
    | S fuel' =>
        let* r := at_index (container_ idx) offset_find_lhs in
        if key_ r =? key then
          let values := values ++ [value_ r] in
          let* offset_find_lhs := int_arith (offset_find_lhs - 1) in
          move_left fuel' key offset_find_lhs values
        else Ok values
    end
  else Ok values.

(** The loop "move right" of [find]:
    [while (offset_find_rhs < this->size_ - 1) { ... offset_find_rhs += 1; }]
    where the [int] on the left is converted to [size_t] for the comparison. *)
Fixpoint move_right (fuel : nat) (key : Z) (offset_find_rhs : Z) (values : list Z)
  : outcome (list Z) :=
  if size_t_of offset_find_rhs <? size_t_of (size_ idx - 1) then
    match fuel with
    | O => OutOfFuel
    | S fuel' =>
        let* r := at_index (container_ idx) offset_find_rhs in
        if key_ r =? key then
          let values := values ++ [value_ r] in
          let* offset_find_rhs := int_arith (offset_find_rhs + 1) in
          move_right fuel' key offset_find_rhs values
        else Ok values
    end
  else Ok values.

(** [find(key, values)]: the result is the vector [values] after the call.
    The first argument of [move_left] and of [move_right] is the loop
    budget, the number of offsets left between the start and the bound. *)
Definition find (key : Z) (values : list Z) : outcome (list Z) :=
  if size_ idx =? 0 then Ok values
  else if (key >? key_max_ idx) || (key <? key_min_ idx) then Ok values
  else if key_max_ idx =? key_min_ idx then
    if key_max_ idx =? key then
      for_loop (Z.to_nat (size_ idx)) 0
        (fun i values =>
           let* r := at_index (container_ idx) i in Ok (values ++ [value_ r]))
        values
    else Ok values
  else
    let* '(first, second) := find_inner_layers key in
    let* offset_find :=
      if first =? second then Ok (size_t_of first)
      else find_internal key first second in
    if offset_find =? size_ idx then Ok values
    else
      let* r := at_index (container_ idx) offset_find in
      let values := values ++ [value_ r] in
      let offset_find_lhs := int_of (size_t_of (offset_find - 1)) in
      let* values := move_left (Z.to_nat (offset_find_lhs + 1)) key offset_find_lhs values in
      let offset_find_rhs := int_of (size_t_of (offset_find + 1)) in
      move_right (Z.to_nat (size_t_of (size_ idx - 1) - size_t_of offset_find_rhs))
        key offset_find_rhs values.

(** [find_range(lhs_key, rhs_key, values)]. *)
Definition find_range (lhs_key rhs_key : Z) (values : list Z) : outcome (list Z) :=
  let* _ := ASSERT (lhs_key <? rhs_key) in
  if size_ idx =? 0 then Ok values
  else if (lhs_key >? key_max_ idx) || (rhs_key <? key_min_ idx) then Ok values
  else Ok values.

End Lookup.

(** The index of a table after construction and one rebuild. *)
Definition build (table_ptr : list KeyValue) (num_layers : Z) : outcome FastIndex :=
  let* idx := FastIndex_new table_ptr num_layers in
  reorganize idx.

(** The table whose [i]-th record has key [keys[i]] and reference [i]. *)
Definition table_of (keys : list Z) : list KeyValue :=
  imap (fun i k => kv k (Z.of_nat i)) keys.

(** ** The scalar reading of the branch selector *)

(** The three comparisons [key > fence[i]] packed in a 3-bit mask, bit [i]
    for fence [i]. *)
Definition comparison_mask (key f0 f1 f2 : Z) : Z :=
  Z.b2z (key >? f0) + 2 * Z.b2z (key >? f1) + 4 * Z.b2z (key >? f2).

Definition legal_mask (m : Z) : Prop := m = 0 \/ m = 2 \/ m = 3 \/ m = 7.

Definition impossible_mask (m : Z) : Prop := m = 1 \/ m = 4 \/ m = 5 \/ m = 6.


(** ** Orders, budgets and the derived depth *)

Definition key_le (a b : KeyValue) : Prop := key_ a <= key_ b.

(** A run that does not end for lack of loop budget. *)
Definition fuel_free {A : Type} (m : outcome A) : Prop := m <> OutOfFuel.

(** The cache-line depth that the constructor derives from the 16-byte
    vector, the 64-byte cache line and the 4-byte key. *)
Definition derived_cacheline_depth : Z := 4.

(** ** Example indexes *)

(** The index that [build] returns for the 16 keys 0, 2, ..., 30 and
    [num_layers = 4], without its table. *)
Definition selector_example : FastIndex :=
  mkFastIndex [] [] 0 4 0 0 [14; 6; 22; 2; 0; 4; 10; 8; 12; 18; 16; 20; 26; 24; 28; 0] 16
    (mkGeometry 3 2 15 4 5 255 8 85).

(** The keys 10, 20, ..., 160 with a zeroed inner-node buffer. *)
Definition fence_example : FastIndex :=
  mkFastIndex [] (table_of ((fun i => 10 * (i + 1)) <$> seqZ 0 16)) 16 4 10 160
    (replicate 16 0) 16 (mkGeometry 3 2 15 4 5 255 8 85).

(** The index of the keys 1, 1, 3, 5, 5, 5, 9, 12 with [num_layers = 0]. *)
Definition bounds_example : FastIndex :=
  mkFastIndex (table_of [1; 1; 3; 5; 5; 5; 9; 12]) (table_of [1; 1; 3; 5; 5; 5; 9; 12])
    8 0 1 12 [] 0 (mkGeometry 3 2 15 4 5 255 8 85).

Definition scenario_table : list KeyValue := table_of [1; 1; 3; 5; 5; 5; 9; 12].

Definition even_keys_table : list KeyValue := table_of ((fun i => 2 * i) <$> seqZ 0 16).

(** The 16 keys 0, 200000000, ..., 3000000000 of an unsigned 4-byte key
    type; the last five are 2^31 or more. *)
Definition wide_keys_table : list KeyValue :=
  table_of ((fun i => 200000000 * i) <$> seqZ 0 16).

(** The keys whose conversion to [int] is the key itself: every key of a
    signed 4-byte type, and the keys below 2^31 of an unsigned one. *)
Definition int_key (k : Z) : Prop := - 2 ^ 31 <= k < 2 ^ 31.

Definition int_keys (c : list KeyValue) : Prop := Forall (fun r => int_key (key_ r)) c.

(** ** Notions used to state what the lookups and the builder compute *)

(** The longest prefix of [l] whose records have the key [key]: what one of
    the two scanning loops of [find] collects when it walks [l]. *)
Fixpoint run (key : Z) (l : list KeyValue) : list KeyValue :=
  match l with
  | [] => []
  | r :: l' => if key_ r =? key then r :: run key l' else []
  end.

(** The records that [find] collects around the offset [o]: leftwards from
    [o - 1] down to offset 0, then rightwards from [o + 1] while the offset
    is below [size_ - 1]. *)
Definition scanned_from (c : list KeyValue) (key : Z) (o : nat) : list KeyValue :=
  run key (reverse (take o c)) ++ run key (drop (S o) (take (length c - 1) c)).

(** In [l] no record with the key comes after a record without it. *)
Definition matches_first (key : Z) (l : list KeyValue) : Prop :=
  forall i j a b, l !! i = Some a -> l !! j = Some b -> (i <= j)%nat ->
                  key_ b = key -> key_ a = key.

(** The state of an index after a rebuild of a table of at most 2^30
    records: [size_] counts the container, the container is sorted, and the
    key bounds are the keys of its first and last record. *)
Definition rebuilt (idx : FastIndex) : Prop :=
  size_ idx = Z.of_nat (length (container_ idx)) /\
  1 <= size_ idx <= 2 ^ 30 /\
  StronglySorted key_le (container_ idx) /\
  (exists r, head (container_ idx) = Some r /\ key_min_ idx = key_ r) /\
  (exists r, last (container_ idx) = Some r /\ key_max_ idx = key_ r).

(** [l] holds the references of the linear scan, or all of them but the
    one of the last record of the container. *)
Definition complete_or_last (c : list KeyValue) (key : Z) (l : list Z) : Prop :=
  l ≡ₚ scan_equal c key \/
  exists x, last c = Some x /\ key_ x = key /\ l ++ [value_ x] ≡ₚ scan_equal c key.

(** [container_[i].key_], and 0 outside the container. *)
Definition key_at (c : list KeyValue) (i : Z) : Z :=
  match at_index c i with
  | Ok r => key_ r
  | _ => 0
  end.

(** Slot [d] of a cache-line block holds the fence that ends the
    [slot_boundary[d]]-th sixteenth of the block's range: the root vector
    block holds the boundaries 8, 4, 12, its four children 2, 1, 3, then
    6, 5, 7, then 10, 9, 11, then 14, 13, 15. *)
Definition slot_boundary : list Z := [8; 4; 12; 2; 1; 3; 6; 5; 7; 10; 9; 11; 14; 13; 15].

(** The 15 slots from [pos] hold the fences of the range that starts at
    [lhs] and has sixteen parts of [q] records: slot [d] holds the key of
    the last record of part [slot_boundary[d]]. *)
Definition holds_block (nodes : list Z) (pos : nat) (c : list KeyValue) (lhs q : Z) : Prop :=
  forall (d : nat) (j : Z),
    slot_boundary !! d = Some j ->
    nodes !! (pos + d)%nat = Some (key_at c (lhs + j * q - 1)).

(** [16^k], the number of cache-line blocks of level [k]. *)
Definition pw (k : nat) : Z := 16 ^ Z.of_nat k.

(** The buffer offset at which level [i] starts: 16 slots for each block
    of the levels before it. *)
Fixpoint level_base (i : nat) : Z :=
  match i with
  | O => 0
  | S i' => level_base i' + 16 * pw i'
  end.

(** The levels below [k] of a tree of [L] levels over leaf partitions of
    [m] records are in place: block [j] of level [i] starts at slot
    [level_base i + 16 * j] and holds the fences of the [j]-th range of
    [16^(L-i) * m] records. *)
Definition blocks_upto (nodes : list Z) (c : list KeyValue) (L : nat) (m : Z) (k : nat)
  : Prop :=
  forall (i : nat) (j : Z), (i < k)%nat -> 0 <= j < pw i ->
    holds_block nodes (Z.to_nat (level_base i + 16 * j)) c
      (pw (L - i) * m * j) (pw (L - i - 1) * m).

Definition tree_built (nodes : list Z) (c : list KeyValue) (L : nat) (m : Z) : Prop :=
  blocks_upto nodes c L m L.

(** The index that [build] returns for the 16 keys 0, 2, ..., 30 and
    [num_layers = 4]. *)
Definition tree_example : FastIndex :=
  mkFastIndex even_keys_table even_keys_table 16 4 0 30
    [14; 6; 22; 2; 0; 4; 10; 8; 12; 18; 16; 20; 26; 24; 28; 0] 16
    (mkGeometry 3 2 15 4 5 255 8 85).

(** * Properties *)

(** ** Machine integers and arrays *)

Lemma size_t_of_small (x : Z) : 0 <= x < 2 ^ 64 -> size_t_of x = x.
Proof. intros H. unfold size_t_of. now apply Z.mod_small. Qed.

Lemma int_arith_Ok (x y : Z) : int_arith x = Ok y -> y = x /\ - 2 ^ 31 <= x < 2 ^ 31.
Proof.
  unfold int_arith.
  destruct (Z.leb_spec (- 2 ^ 31) x), (Z.ltb_spec x (2 ^ 31)); simpl;
    intros E; try discriminate.
  injection E as <-. lia.
Qed.

Lemma at_index_Ok {A : Type} (a : list A) (i : Z) (x : A) :
  at_index a i = Ok x <-> 0 <= i /\ a !! Z.to_nat i = Some x.
Proof.
  unfold at_index. destruct (Z.ltb_spec i 0) as [Hi|Hi].
  - split; [discriminate | lia].
  - destruct (a !! Z.to_nat i) as [y|]; split.
    + intros [= <-]. auto.
    + intros [_ [= <-]]. reflexivity.
    + discriminate.
    + intros [_ [=]].
Qed.

Lemma at_index_in_range {A : Type} (a : list A) (i : Z) :
  0 <= i < Z.of_nat (length a) -> exists x, at_index a i = Ok x.
Proof.
  intros Hi. destruct (lookup_lt_is_Some_2 a (Z.to_nat i)) as [x Hx]; [lia|].
  exists x. apply at_index_Ok. split; [lia | exact Hx].
Qed.

Lemma store_Ok {A : Type} (a : list A) (i : Z) (x : A) :
  0 <= i < Z.of_nat (length a) -> store a i x = Ok (<[Z.to_nat i := x]> a).
Proof.
  intros Hi. unfold store.
  destruct (Z.leb_spec 0 i); [|lia]. destruct (Z.ltb_spec i (Z.of_nat (length a))); [|lia].
  reflexivity.
Qed.

(** ** C4 and C5: the vectorised branch selector *)

Lemma int_of_range (x : Z) : int_key (int_of x).
Proof.
  unfold int_key, int_of.
  pose proof (Z.mod_pos_bound (x + 2 ^ 31) (2 ^ 32) eq_refl). lia.
Qed.

Lemma int_of_int_key (x : Z) : int_key x -> int_of x = x.
Proof.
  unfold int_key, int_of. intros H. rewrite Z.mod_small by lia. lia.
Qed.

Lemma int_of_idem (x : Z) : int_of (int_of x) = int_of x.
Proof. apply int_of_int_key, int_of_range. Qed.

Lemma movemask_is_comparison_mask (key f0 f1 f2 f3 : Z) :
  Z.land (mm_movemask_ps (mm_castsi128_ps
            (mm_cmpgt_epi32 (mm_set1_epi32 key) (lanes f0 f1 f2 f3)))) 7
  = comparison_mask (int_of key) (int_of f0) (int_of f1) (int_of f2).
Proof.
  unfold comparison_mask, mm_movemask_ps, mm_castsi128_ps, mm_cmpgt_epi32,
    mm_set1_epi32, cmpgt_lane, sign_bit; cbn [lane0 lane1 lane2 lane3].
  rewrite int_of_idem.
  destruct (int_of key >? int_of f0), (int_of key >? int_of f1),
    (int_of key >? int_of f2), (int_of key >? int_of f3); reflexivity.
Qed.

Lemma lookup_simd_block_signed_mask (idx : FastIndex) (key pos f0 f1 f2 f3 : Z) :
  mm_loadu_si128 (inner_nodes_ idx) pos = Ok (lanes f0 f1 f2 f3) ->
  lookup_simd_block idx key pos
  = at_index table (comparison_mask (int_of key) (int_of f0) (int_of f1) (int_of f2)).
Proof.
  intros Hload. unfold lookup_simd_block. rewrite Hload. cbn [bind].
  rewrite movemask_is_comparison_mask.
  destruct (at_index table _); reflexivity.
Qed.

Lemma lookup_simd_block_mask (idx : FastIndex) (key pos f0 f1 f2 f3 : Z) :
  mm_loadu_si128 (inner_nodes_ idx) pos = Ok (lanes f0 f1 f2 f3) ->
  int_key key -> int_key f0 -> int_key f1 -> int_key f2 ->
  lookup_simd_block idx key pos = at_index table (comparison_mask key f0 f1 f2).
Proof.
  intros Hload Hk H0 H1 H2.
  rewrite (lookup_simd_block_signed_mask idx key pos f0 f1 f2 f3 Hload).
  now rewrite !int_of_int_key.
Qed.

Lemma comparison_mask_cases (key f0 f1 f2 : Z) :
  legal_mask (comparison_mask key f0 f1 f2) \/
  impossible_mask (comparison_mask key f0 f1 f2).
Proof.
  unfold legal_mask, impossible_mask, comparison_mask.
  destruct (key >? f0), (key >? f1), (key >? f2); simpl; lia.
Qed.




(** C5, as stated, fails: in the index built over the sorted unsigned keys
    0, 200000000, ..., 3000000000 the root block holds the fences
    1400000000, 600000000, 2200000000; for the key 2800000000 of record 14
    the signed comparisons give the impossible mask 100, and the selector
    returns the value 9 as an ordinary result.  Nothing is raised: the
    cache-line lookup goes on with 9 as a branch id and [find] reads the
    node buffer, which has 16 slots, at slot 30. *)
Lemma impossible_mask_is_not_fatal :
  exists idx, build wide_keys_table 4 = Ok idx /\
    mm_loadu_si128 (inner_nodes_ idx) 0
    = Ok (lanes 1400000000 600000000 2200000000 200000000) /\
    impossible_mask (comparison_mask (int_of 2800000000) (int_of 1400000000)
                       (int_of 600000000) (int_of 2200000000)) /\
    lookup_simd_block idx 2800000000 0 = Ok 9 /\
    lookup_simd_block idx 2800000000 0 <> Fatal /\
    length (inner_nodes_ idx) = 16%nat /\
    find idx 2800000000 [] = Undefined /\
    find idx 2800000000 [] <> Fatal /\
    scan_equal wide_keys_table 2800000000 = [14].
Proof.
  eexists. split; [vm_compute; reflexivity|].
  split; [reflexivity|]. split; [unfold impossible_mask; vm_compute; auto|].
  split; [reflexivity|]. split; [discriminate|]. split; [reflexivity|].
  split; [vm_compute; reflexivity|]. split; [vm_compute; discriminate | reflexivity].
Qed.

(** C5, amended: on an impossible mask of the signed comparisons the
    selector raises nothing and returns the sentinel 9, which is none of
    the branch ids 0..3, and the cache-line lookup uses it as a branch id:
    it reads its second vector block at slot [pos + 30] and answers 36
    plus the branch of that block. *)
Theorem impossible_mask_returns_sentinel (idx : FastIndex) (key pos f0 f1 f2 f3 : Z) :
  mm_loadu_si128 (inner_nodes_ idx) pos = Ok (lanes f0 f1 f2 f3) ->
  impossible_mask (comparison_mask (int_of key) (int_of f0) (int_of f1) (int_of f2)) ->
  lookup_simd_block idx key pos = Ok 9 /\
  lookup_cacheline_block idx key pos
  = let* b := lookup_simd_block idx key (size_t_of (pos + 30)) in
    Ok (size_t_of (36 + b)).
Proof.
  intros Hload Himp.
  assert (H9 : lookup_simd_block idx key pos = Ok 9).
  { rewrite (lookup_simd_block_signed_mask idx key pos f0 f1 f2 f3 Hload).
    destruct Himp as [-> | [-> | [-> | ->]]]; reflexivity. }
  split; [exact H9|]. unfold lookup_cacheline_block. rewrite H9. reflexivity.
Qed.

Lemma impossible_mask_returns_sentinel_witness :
  exists idx, build wide_keys_table 4 = Ok idx /\
    lookup_simd_block idx 2800000000 0 = Ok 9.
Proof.
  eexists. split; [vm_compute; reflexivity|].
  match goal with
  | |- lookup_simd_block ?i _ _ = _ =>
      destruct (impossible_mask_returns_sentinel i 2800000000 0
                  1400000000 600000000 2200000000 200000000) as [H _];
        [reflexivity | unfold impossible_mask; vm_compute; auto | exact H]
  end.
Defined.

(** ** C3: the fence keys of a vector block *)

(** C3, as stated, fails: over [0, 15] the step is 4, the block holds the
    keys at indices 7, 3 and 11, and the keys at indices 8 = lhs + 2*step
    and 4 = lhs + step are different ones. *)
Lemma fences_are_not_at_quarter_starts :
  exists nodes k0 k1 r1 r2,
    construct_simd_block fence_example (inner_nodes_ fence_example) 0 0 15 = Ok nodes /\
    at_index nodes 0 = Ok k0 /\ at_index nodes 1 = Ok k1 /\
    at_index (container_ fence_example) (0 + (15 - 0 + 1) / 4) = Ok r1 /\
    at_index (container_ fence_example) (0 + 2 * ((15 - 0 + 1) / 4)) = Ok r2 /\
    k0 <> key_ r2 /\ k1 <> key_ r1.
Proof.
  exists [80; 40; 120; 0; 0; 0; 0; 0; 0; 0; 0; 0; 0; 0; 0; 0], 80, 40, (kv 50 4), (kv 90 8).
  repeat split; try reflexivity; simpl; lia.
Qed.

(** C3, amended: the three fence keys are the table's keys at the indices
    [lhs + step - 1], [lhs + 2*step - 1] and [lhs + 3*step - 1], the last
    record of the 1st, 2nd and 3rd quarter, where
    [step = (rhs - lhs + 1) / 4]; slot 0 of the block holds the 2nd-quarter
    key, slot 1 the 1st-quarter key, slot 2 the 3rd-quarter key, and no
    other slot of the buffer changes. *)
Theorem construct_simd_block_fences (idx : FastIndex) (nodes : list Z)
    (current_pos lhs rhs : Z) :
  simd_key_capacity_ (geometry_ idx) = 3 ->
  0 <= lhs -> lhs + 4 <= rhs + 1 ->
  rhs < Z.of_nat (length (container_ idx)) -> rhs < 2 ^ 64 - 1 ->
  0 <= current_pos -> current_pos + 2 < Z.of_nat (length nodes) ->
  current_pos + 2 < 2 ^ 64 ->
  let step := (rhs - lhs + 1) / 4 in
  exists r1 r2 r3 nodes',
    at_index (container_ idx) (lhs + step - 1) = Ok r1 /\
    at_index (container_ idx) (lhs + 2 * step - 1) = Ok r2 /\
    at_index (container_ idx) (lhs + 3 * step - 1) = Ok r3 /\
    construct_simd_block idx nodes current_pos lhs rhs = Ok nodes' /\
    at_index nodes' current_pos = Ok (key_ r2) /\
    at_index nodes' (current_pos + 1) = Ok (key_ r1) /\
    at_index nodes' (current_pos + 2) = Ok (key_ r3) /\
    length nodes' = length nodes /\
    forall j, j < current_pos \/ current_pos + 2 < j -> at_index nodes' j = at_index nodes j.
Proof.
  intros Hcap Hlhs Hwidth Hrhs Hrhs64 Hpos Hlen Hpos64 step.
  assert (Hstep : 1 <= step /\ 4 * step <= rhs - lhs + 1).
  { unfold step. split.
    - apply Z.div_le_lower_bound; lia.
    - apply Z.mul_div_le; lia. }
  destruct (at_index_in_range (container_ idx) (lhs + step - 1)) as [r1 Hr1]; [lia|].
  destruct (at_index_in_range (container_ idx) (lhs + 2 * step - 1)) as [r2 Hr2]; [lia|].
  destruct (at_index_in_range (container_ idx) (lhs + 3 * step - 1)) as [r3 Hr3]; [lia|].
  exists r1, r2, r3,
    (<[Z.to_nat (current_pos + 2) := key_ r3]>
       (<[Z.to_nat (current_pos + 1) := key_ r1]>
          (<[Z.to_nat current_pos := key_ r2]> nodes))).
  split; [exact Hr1|]. split; [exact Hr2|]. split; [exact Hr3|].
  split.
  { unfold construct_simd_block. rewrite Hcap. cbn [Z.eqb Pos.eqb ASSERT bind].
    rewrite (size_t_of_small (rhs - lhs + 1)) by lia. fold step.
    rewrite (size_t_of_small (lhs + 2 * step - 1)) by lia. rewrite Hr2. cbn [bind].
    rewrite (size_t_of_small (current_pos + 0)) by lia.
    rewrite Z.add_0_r, store_Ok by lia. cbn [bind].
    replace (lhs + 1 * step - 1) with (lhs + step - 1) by lia.
    rewrite (size_t_of_small (lhs + step - 1)) by lia. rewrite Hr1. cbn [bind].
    rewrite (size_t_of_small (current_pos + 1)) by lia.
    rewrite store_Ok by (rewrite length_insert; lia). cbn [bind].
    rewrite (size_t_of_small (lhs + 3 * step - 1)) by lia. rewrite Hr3. cbn [bind].
    rewrite (size_t_of_small (current_pos + 2)) by lia.
    rewrite store_Ok by (rewrite !length_insert; lia). reflexivity. }
  split.
  { apply at_index_Ok. split; [lia|].
    rewrite !list_lookup_insert_ne by lia.
    apply list_lookup_insert_eq. lia. }
  split.
  { apply at_index_Ok. split; [lia|].
    rewrite list_lookup_insert_ne by lia.
    apply list_lookup_insert_eq. rewrite length_insert. lia. }
  split.
  { apply at_index_Ok. split; [lia|].
    apply list_lookup_insert_eq. rewrite !length_insert. lia. }
  split; [now rewrite !length_insert|].
  intros j Hj. unfold at_index. destruct (Z.ltb_spec j 0) as [|Hj0]; [reflexivity|].
  rewrite !list_lookup_insert_ne by lia. reflexivity.
Qed.

Lemma construct_simd_block_fences_witness :
  exists nodes',
    construct_simd_block fence_example (inner_nodes_ fence_example) 0 0 15 = Ok nodes' /\
    at_index nodes' 0 = Ok 80 /\ at_index nodes' 1 = Ok 40 /\ at_index nodes' 2 = Ok 120.
Proof.
  destruct (construct_simd_block_fences fence_example (inner_nodes_ fence_example) 0 0 15)
    as (r1 & r2 & r3 & nodes' & H1 & H2 & H3 & Hc & Hn0 & Hn1 & Hn2 & _);
    try (simpl; lia); try reflexivity.
  exists nodes'.
  vm_compute in H1, H2, H3.
  injection H1 as <-. injection H2 as <-. injection H3 as <-.
  repeat split; assumption.
Defined.

(** ** The outcome monad *)

Lemma bind_Ok {A B : Type} (m : outcome A) (k : A -> outcome B) (b : B) :
  bind m k = Ok b -> exists a, m = Ok a /\ k a = Ok b.
Proof. destruct m as [a| | |]; simpl; intros H; try discriminate. eauto. Qed.

Ltac bind_inv H :=
  let a := fresh "a" in
  let E := fresh "E" in
  apply bind_Ok in H; destruct H as (a & E & H).

(** ** The base class: sorting *)

Lemma insert_sorted_perm (r : KeyValue) (l : list KeyValue) :
  insert_sorted r l ≡ₚ r :: l.
Proof.
  induction l as [|x l IH]; simpl; [reflexivity|].
  destruct (key_ r <=? key_ x); [reflexivity|].
  rewrite IH. apply Permutation_swap.
Qed.

Lemma sort_by_key_perm (l : list KeyValue) : sort_by_key l ≡ₚ l.
Proof.
  induction l as [|r l IH]; simpl; [reflexivity|].
  rewrite insert_sorted_perm. now rewrite IH.
Qed.

Lemma sort_by_key_length (l : list KeyValue) : length (sort_by_key l) = length l.
Proof. apply Permutation_length, sort_by_key_perm. Qed.

Lemma insert_sorted_sorted (r : KeyValue) (l : list KeyValue) :
  StronglySorted key_le l -> StronglySorted key_le (insert_sorted r l).
Proof.
  induction 1 as [|x l Hs IH Hx]; simpl.
  - repeat constructor.
  - destruct (Z.leb_spec (key_ r) (key_ x)) as [Hle|Hgt].
    + constructor; [now constructor|].
      constructor; [exact Hle|].
      eapply Forall_impl; [exact Hx|]. unfold key_le. intros; lia.
    + constructor; [exact IH|].
      rewrite insert_sorted_perm. constructor; [unfold key_le; lia | exact Hx].
Qed.

Lemma sort_by_key_sorted (l : list KeyValue) : StronglySorted key_le (sort_by_key l).
Proof.
  induction l as [|r l IH]; simpl; [constructor | now apply insert_sorted_sorted].
Qed.

(** ** Construction and rebuild *)

Lemma FastIndex_new_spec (t : list KeyValue) (nl : Z) :
  FastIndex_new t nl =
  if nl mod derived_cacheline_depth =? 0
  then Ok (mkFastIndex t [] 0 nl 0 0 [] 0 (mkGeometry 3 2 15 4 5 255 8 85))
  else Fatal.
Proof.
  unfold FastIndex_new, derived_cacheline_depth. simpl.
  change (Z.pos (Pos.succ (Pos.succ (Pos.succ 1)))) with 4.
  destruct (nl mod 4 =? 0); reflexivity.
Qed.

Lemma FastIndex_new_geometry (t : list KeyValue) (nl : Z) (idx : FastIndex) :
  FastIndex_new t nl = Ok idx ->
  table_ptr_ idx = t /\ num_layers_ idx = nl /\
  geometry_ idx = mkGeometry 3 2 15 derived_cacheline_depth 5 255 8 85.
Proof.
  rewrite FastIndex_new_spec. destruct (_ =? 0); [|discriminate].
  intros [= <-]. auto.
Qed.

Lemma reorganize_too_deep (idx : FastIndex) :
  num_layers_ idx <= 63 ->
  2 ^ num_layers_ idx - 1 >= Z.of_nat (length (table_ptr_ idx)) ->
  reorganize idx = Fatal.
Proof.
  intros Hnl Hdeep. unfold reorganize.
  cbn [base_reorganize num_layers_ size_ container_].
  rewrite sort_by_key_length. unfold pow2_minus_one.
  destruct (Z.leb_spec (num_layers_ idx) 53) as [H53|H53]; cbn [bind].
  - destruct (Z.ltb_spec (2 ^ num_layers_ idx - 1) (Z.of_nat (length (table_ptr_ idx))));
      [lia | reflexivity].
  - destruct (Z.leb_spec (num_layers_ idx) 63); [|lia]. cbn [bind].
    destruct (Z.ltb_spec (2 ^ num_layers_ idx) (Z.of_nat (length (table_ptr_ idx))));
      [lia | reflexivity].
Qed.

(** C8: the depth 64 is a multiple of the derived cache-line depth and
    [2^64 - 1] is at least the size of a table of three records, so the
    rebuild has to fail fatally.  The constructor accepts the depth, and the
    rebuild computes [std::pow(2.0, 64) - 1], which is 2^64 in double
    precision, and converts it to [size_t], which cannot hold it: the
    behaviour is undefined, and the assertion that guards the depth is not
    what stops the rebuild. *)
Theorem depth_64_is_not_rejected :
  64 mod derived_cacheline_depth = 0 /\
  2 ^ 64 - 1 >= Z.of_nat (length (table_of [1; 2; 3])) /\
  (exists idx, FastIndex_new (table_of [1; 2; 3]) 64 = Ok idx /\ num_layers_ idx = 64) /\
  pow2_minus_one 64 = Undefined /\
  build (table_of [1; 2; 3]) 64 = Undefined /\
  build (table_of [1; 2; 3]) 64 <> Fatal.
Proof.
  split; [reflexivity|]. split; [vm_compute; discriminate|].
  split; [eexists; split; [vm_compute; reflexivity | reflexivity]|].
  split; [reflexivity|]. split; [vm_compute; reflexivity | vm_compute; discriminate].
Qed.

(** X14: a requested depth that is not a multiple of the derived cache-line
    depth stops the constructor with a fatal assertion, and a rebuild whose
    depth is at most 63 and gives [2^num_layers - 1 >= table size] stops
    with a fatal assertion; in both cases construction followed by a
    rebuild yields no index.  Up to depth 63, [2^num_layers - 1] converts
    to a [size_t]. *)
Theorem invalid_depth_is_fatal (t : list KeyValue) (nl : Z) :
  (nl mod derived_cacheline_depth <> 0 ->
   FastIndex_new t nl = Fatal /\ build t nl = Fatal) /\
  (nl <= 63 -> 2 ^ nl - 1 >= Z.of_nat (length t) ->
   (forall idx, table_ptr_ idx = t -> num_layers_ idx = nl -> reorganize idx = Fatal) /\
   build t nl = Fatal).
Proof.
  split.
  - intros Hr.
    assert (Hctor : FastIndex_new t nl = Fatal).
    { rewrite FastIndex_new_spec.
      destruct (Z.eqb_spec (nl mod derived_cacheline_depth) 0); [lia | reflexivity]. }
    split; [exact Hctor|]. unfold build. now rewrite Hctor.
  - intros Hnl Hdeep.
    assert (Hre : forall idx, table_ptr_ idx = t -> num_layers_ idx = nl ->
              reorganize idx = Fatal).
    { intros idx <- <-. now apply reorganize_too_deep. }
    split; [exact Hre|]. unfold build. rewrite FastIndex_new_spec.
    destruct (nl mod derived_cacheline_depth =? 0); [|reflexivity].
    cbn [bind]. now apply Hre.
Qed.

Lemma invalid_depth_is_fatal_witness :
  FastIndex_new (table_of [1; 2; 3]) 3 = Fatal /\
  build (table_of (seqZ 0 15)) 4 = Fatal.
Proof.
  split.
  - destruct (invalid_depth_is_fatal (table_of [1; 2; 3]) 3) as [Hctor _].
    apply Hctor. intros H. vm_compute in H. discriminate H.
  - destruct (invalid_depth_is_fatal (table_of (seqZ 0 15)) 4) as [_ Hdeep].
    apply Hdeep; [lia|]. intros H. vm_compute in H. discriminate H.
Defined.

(** What a successful rebuild leaves in the index. *)
Lemma reorganize_Ok (idx idx' : FastIndex) :
  reorganize idx = Ok idx' ->
  table_ptr_ idx' = table_ptr_ idx /\
  container_ idx' = sort_by_key (table_ptr_ idx) /\
  size_ idx' = Z.of_nat (length (container_ idx')) /\
  num_layers_ idx' = num_layers_ idx /\
  geometry_ idx' = geometry_ idx /\
  exists first last,
    at_index (container_ idx') 0 = Ok first /\
    at_index (container_ idx') (size_t_of (size_ idx' - 1)) = Ok last /\
    key_min_ idx' = key_ first /\ key_max_ idx' = key_ last.
Proof.
  unfold reorganize. intros H.
  bind_inv H. bind_inv H. bind_inv H. rename a1 into first. bind_inv H. rename a1 into last.
  cbn [base_reorganize num_layers_ size_ container_ table_ptr_ key_min_ key_max_
         geometry_ inner_size_ inner_nodes_] in *.
  destruct (negb (num_layers_ idx =? 0)).
  - bind_inv H. bind_inv H. injection H as <-.
    cbn [num_layers_ size_ container_ table_ptr_ key_min_ key_max_ geometry_].
    repeat split; try reflexivity. exists first, last. auto.
  - injection H as <-.
    cbn [num_layers_ size_ container_ table_ptr_ key_min_ key_max_ geometry_].
    repeat split; try reflexivity. exists first, last. auto.
Qed.

Lemma at_index_elem_of {A : Type} (a : list A) (i : Z) (x : A) :
  at_index a i = Ok x -> x ∈ a.
Proof. intros H. apply at_index_Ok in H as [_ H]. now apply list_elem_of_lookup_2 in H. Qed.

(** ** C6: queries outside the key bounds *)

Lemma find_early_return (idx : FastIndex) (key : Z) (values : list Z) :
  size_ idx = 0 \/ key < key_min_ idx \/ key > key_max_ idx ->
  find idx key values = Ok values.
Proof.
  intros H. unfold find.
  destruct (Z.eqb_spec (size_ idx) 0) as [|Hsize]; [reflexivity|].
  destruct (Z.gtb_spec key (key_max_ idx)); [reflexivity|].
  destruct (Z.ltb_spec key (key_min_ idx)); [reflexivity|].
  lia.
Qed.

(** C6: [find] appends nothing, and returns normally, when the index is
    empty or the key is below [key_min] or above [key_max]. *)
Theorem find_out_of_bounds (idx : FastIndex) (key : Z) (values : list Z) :
  size_ idx = 0 \/ key < key_min_ idx \/ key > key_max_ idx ->
  find idx key values = Ok values.
Proof. apply find_early_return. Qed.

Lemma find_out_of_bounds_witness :
  find bounds_example 0 [7] = Ok [7] /\ find bounds_example 13 [] = Ok [].
Proof.
  split.
  - apply (find_out_of_bounds bounds_example 0 [7]). right. left. simpl. lia.
  - apply (find_out_of_bounds bounds_example 13 []). right. right. simpl. lia.
Defined.

(** ** C7: all records share one key *)

Lemma push_all_values (c : list KeyValue) (pre suf : list KeyValue) (values : list Z) :
  c = pre ++ suf ->
  for_loop (length suf) (Z.of_nat (length pre))
    (fun i values => let* r := at_index c i in Ok (values ++ [value_ r])) values
  = Ok (values ++ (value_ <$> suf)).
Proof.
  revert pre values. induction suf as [|r suf IH]; intros pre values Hc.
  - simpl. now rewrite app_nil_r.
  - cbn [length for_loop].
    assert (Hr : at_index c (Z.of_nat (length pre)) = Ok r).
    { apply at_index_Ok. split; [lia|]. rewrite Nat2Z.id, Hc.
      now rewrite list_lookup_middle. }
    rewrite Hr. cbn [bind].
    replace (Z.of_nat (length pre) + 1) with (Z.of_nat (length (pre ++ [r])))
      by (rewrite length_app; simpl; lia).
    rewrite IH by (now rewrite <- app_assoc).
    now rewrite fmap_cons, <- app_assoc.
Qed.

Lemma find_single_key (idx : FastIndex) (K : Z) (values : list Z) :
  size_ idx = Z.of_nat (length (container_ idx)) -> size_ idx <> 0 ->
  key_min_ idx = K -> key_max_ idx = K ->
  find idx K values = Ok (values ++ (value_ <$> container_ idx)) /\
  forall K', K' <> K -> find idx K' values = Ok values.
Proof.
  intros Hsize Hne Hmin Hmax. split.
  - unfold find. rewrite Hmin, Hmax.
    destruct (Z.eqb_spec (size_ idx) 0); [contradiction|].
    destruct (Z.gtb_spec K K); [lia|]. destruct (Z.ltb_spec K K); [lia|].
    rewrite Z.eqb_refl. cbn [orb].
    rewrite Hsize, Nat2Z.id.
    apply (push_all_values (container_ idx) [] (container_ idx) values eq_refl).
  - intros K' HK'. apply find_early_return. lia.
Qed.

(** C7: when every record of the table has the key [K], the rebuilt index
    has [key_min = key_max = K]; [find K] appends the references of all the
    records, [find K'] appends nothing for every other key, and neither
    depends on the inner-node buffer or on the depth: the tree lookup and
    the binary search are not entered. *)
Theorem find_all_records_share_key (t : list KeyValue) (nl K : Z) (idx : FastIndex)
    (values : list Z) :
  build t nl = Ok idx ->
  (forall r, r ∈ t -> key_ r = K) ->
  key_min_ idx = K /\ key_max_ idx = K /\
  container_ idx ≡ₚ t /\
  find idx K values = Ok (values ++ (value_ <$> container_ idx)) /\
  (forall K', K' <> K -> find idx K' values = Ok values) /\
  (forall nodes layers K',
     find (mkFastIndex (table_ptr_ idx) (container_ idx) (size_ idx) layers
             (key_min_ idx) (key_max_ idx) nodes (inner_size_ idx) (geometry_ idx))
          K' values
     = find idx K' values).
Proof.
  intros Hbuild Hkeys. unfold build in Hbuild. bind_inv Hbuild.
  apply FastIndex_new_geometry in E as (Et & _ & _).
  apply reorganize_Ok in Hbuild
    as (_ & Hc & Hsize & _ & _ & first & last & Hfirst & Hlast & Hmin & Hmax).
  assert (Hperm : container_ idx ≡ₚ t) by (rewrite Hc, Et; apply sort_by_key_perm).
  assert (HK : forall r, r ∈ container_ idx -> key_ r = K).
  { intros r Hr. apply Hkeys. now rewrite <- Hperm. }
  assert (Hkmin : key_min_ idx = K).
  { rewrite Hmin. eapply HK, at_index_elem_of, Hfirst. }
  assert (Hkmax : key_max_ idx = K).
  { rewrite Hmax. eapply HK, at_index_elem_of, Hlast. }
  assert (Hne : size_ idx <> 0).
  { apply at_index_Ok in Hfirst as [_ Hl]. apply lookup_lt_Some in Hl. lia. }
  destruct (find_single_key idx K values Hsize Hne Hkmin Hkmax) as [HfK Hf'].
  repeat split; try assumption.
  intros nodes layers K'.
  set (idx2 := mkFastIndex _ _ _ _ _ _ _ _ _).
  destruct (find_single_key idx2 K values Hsize Hne Hkmin Hkmax) as [HfK2 Hf2].
  destruct (Z.eq_dec K' K) as [->|HK'].
  - now rewrite HfK, HfK2.
  - now rewrite Hf', Hf2.
Qed.

Lemma find_all_records_share_key_witness :
  exists idx,
    build [kv 7 10; kv 7 11; kv 7 12] 0 = Ok idx /\
    find idx 7 [] = Ok [10; 11; 12] /\ find idx 8 [] = Ok [].
Proof.
  eexists. split; [reflexivity|].
  match goal with |- find ?i _ _ = _ /\ _ =>
    destruct (find_all_records_share_key [kv 7 10; kv 7 11; kv 7 12] 0 7 i [] eq_refl)
      as (_ & _ & _ & HK & HK' & _)
  end.
  - intros r Hr. repeat (apply elem_of_cons in Hr as [->|Hr]; [reflexivity|]).
    now apply elem_of_nil in Hr.
  - split; [exact HK | apply HK'; lia].
Defined.

(** ** C9: the concrete scenario *)

(** C9, as stated, fails: the references returned by [find 5] are not the
    ones of indices 2, 3 and 4; the record of index 2 has key 3. *)
Lemma find_5_is_not_2_3_4 :
  exists idx l,
    build scenario_table 0 = Ok idx /\
    find idx 5 [] = Ok l /\
    ~ l ≡ₚ [2; 3; 4] /\
    at_index (container_ idx) 2 = Ok (kv 3 2).
Proof.
  eexists. exists [3; 4; 5]. split; [reflexivity|]. split; [reflexivity|].
  split; [|reflexivity].
  intros HP. assert (H : 2 ∈ [3; 4; 5]) by (rewrite HP; apply list_elem_of_here).
  repeat (apply elem_of_cons in H as [H|H]; [discriminate H|]).
  now apply elem_of_nil in H.
Qed.

(** C9, amended: with [num_layers = 0] the tree lookup returns the full
    range [0, 7]; [find 5] returns exactly the references 3, 4 and 5, the
    three records with key 5, and [find 7] returns nothing. *)
Theorem scenario_find_5_and_7 :
  exists idx,
    build scenario_table 0 = Ok idx /\
    find_inner_layers idx 5 = Ok (0, 7) /\
    find idx 5 [] = Ok [3; 4; 5] /\
    scan_equal (container_ idx) 5 = [3; 4; 5] /\
    find idx 7 [] = Ok [] /\
    scan_equal (container_ idx) 7 = [].
Proof. eexists. repeat split; reflexivity. Qed.

(** ** C10: the output vector only grows *)

Section Frame.

Variable idx : FastIndex.
Variable key : Z.

Lemma for_loop_push_frame (n : nat) (i : Z) (pre l : list Z) :
  for_loop n i
    (fun i values => let* r := at_index (container_ idx) i in Ok (values ++ [value_ r]))
    (pre ++ l)
  = outcome_map (app pre)
      (for_loop n i
         (fun i values => let* r := at_index (container_ idx) i in Ok (values ++ [value_ r]))
         l).
Proof.
  revert i l. induction n as [|n IH]; intros i l; [reflexivity|].
  cbn [for_loop]. destruct (at_index (container_ idx) i) as [r| | |]; try reflexivity.
  cbn [bind]. rewrite <- app_assoc. apply IH.
Qed.

Lemma move_left_frame (fuel : nat) (lhs : Z) (pre l : list Z) :
  move_left idx fuel key lhs (pre ++ l)
  = outcome_map (app pre) (move_left idx fuel key lhs l).
Proof.
  revert lhs l. induction fuel as [|fuel IH]; intros lhs l; cbn [move_left];
    destruct (lhs >=? 0); try reflexivity.
  destruct (at_index (container_ idx) lhs) as [r| | |]; try reflexivity. cbn [bind].
  destruct (key_ r =? key); [|reflexivity].
  destruct (int_arith (lhs - 1)) as [lhs'| | |]; try reflexivity. cbn [bind].
  rewrite <- app_assoc. apply IH.
Qed.

Lemma move_right_frame (fuel : nat) (rhs : Z) (pre l : list Z) :
  move_right idx fuel key rhs (pre ++ l)
  = outcome_map (app pre) (move_right idx fuel key rhs l).
Proof.
  revert rhs l. induction fuel as [|fuel IH]; intros rhs l; cbn [move_right];
    destruct (size_t_of rhs <? size_t_of (size_ idx - 1)); try reflexivity.
  destruct (at_index (container_ idx) rhs) as [r| | |]; try reflexivity. cbn [bind].
  destruct (key_ r =? key); [|reflexivity].
  destruct (int_arith (rhs + 1)) as [rhs'| | |]; try reflexivity. cbn [bind].
  rewrite <- app_assoc. apply IH.
Qed.

Lemma find_frame (values : list Z) :
  find idx key values = outcome_map (app values) (find idx key []).
Proof.
  unfold find.
  destruct (size_ idx =? 0); [simpl; now rewrite app_nil_r|].
  destruct ((key >? key_max_ idx) || (key <? key_min_ idx));
    [simpl; now rewrite app_nil_r|].
  destruct (key_max_ idx =? key_min_ idx).
  { destruct (key_max_ idx =? key); [|simpl; now rewrite app_nil_r].
    rewrite <- (app_nil_r values) at 1. apply for_loop_push_frame. }
  destruct (find_inner_layers idx key) as [[first second]| | |]; try reflexivity.
  cbn [bind].
  destruct (if first =? second then Ok (size_t_of first)
            else find_internal idx key first second) as [offset_find| | |];
    try reflexivity.
  cbn [bind].
  destruct (offset_find =? size_ idx); [simpl; now rewrite app_nil_r|].
  destruct (at_index (container_ idx) offset_find) as [r| | |]; try reflexivity.
  cbn [bind]. rewrite app_nil_l, move_left_frame.
  destruct (move_left idx _ key _ [value_ r]) as [found| | |]; try reflexivity.
  cbn [bind outcome_map]. apply move_right_frame.
Qed.

Lemma find_range_frame (lo hi : Z) (values : list Z) :
  find_range idx lo hi values = outcome_map (app values) (find_range idx lo hi []).
Proof.
  unfold find_range. destruct (lo <? hi); [|reflexivity]. cbn [ASSERT bind].
  destruct (size_ idx =? 0); [simpl; now rewrite app_nil_r|].
  destruct ((lo >? key_max_ idx) || (hi <? key_min_ idx)); simpl; now rewrite app_nil_r.
Qed.

End Frame.

(** C10: whatever the index, the key and the vector passed in, the vector
    that [find] and [find_range] leave is the vector passed in followed by
    what the same call appends to an empty vector: the elements already
    there keep their positions, and results come after them. *)
Theorem find_only_appends (idx : FastIndex) (key lo hi : Z) (values : list Z) :
  find idx key values = outcome_map (app values) (find idx key []) /\
  find_range idx lo hi values = outcome_map (app values) (find_range idx lo hi []).
Proof. split; [apply find_frame | apply find_range_frame]. Qed.

(** ** C1: point lookup against the linear scan *)

(** C1 does not hold of the code.  (1) The loop "move right" stops at
    [size_ - 1], so the last record of the table is never collected by it:
    over the keys 1, 5, 5 the lookup of 5 finds offset 1 and returns the
    reference 1 alone, where the linear scan gives 1 and 2.  (2) When the
    tree narrows the range to a single offset, that offset is taken as found
    without comparing its key: over the 16 keys 0, 2, ..., 30 with
    [num_layers = 4] the lookup of the absent key 5 returns the reference 3,
    whose record has key 6. *)
Theorem find_differs_from_linear_scan :
  (exists idx,
     build (table_of [1; 5; 5]) 0 = Ok idx /\
     find_inner_layers idx 5 = Ok (0, 2) /\
     find_internal idx 5 0 2 = Ok 1 /\
     find idx 5 [] = Ok [1] /\
     scan_equal (container_ idx) 5 = [1; 2]) /\
  (exists idx,
     build even_keys_table 4 = Ok idx /\
     find_inner_layers idx 5 = Ok (3, 3) /\
     find idx 5 [] = Ok [3] /\
     at_index (container_ idx) 3 = Ok (kv 6 3) /\
     scan_equal (container_ idx) 5 = []).
Proof. split; eexists; repeat split; reflexivity. Qed.

(** ** C2: range lookup against the linear scan *)

Lemma find_range_body (idx : FastIndex) (lo hi : Z) (values : list Z) :
  find_range idx lo hi values = if lo <? hi then Ok values else Fatal.
Proof.
  unfold find_range. destruct (lo <? hi); [|reflexivity]. cbn [ASSERT bind].
  destruct (size_ idx =? 0); [reflexivity|].
  destruct ((lo >? key_max_ idx) || (hi <? key_min_ idx)); reflexivity.
Qed.

(** C2 does not hold of the code: [find_range] ends after its two bounds
    checks and never appends anything.  Over the keys 1, 1, 3, 5, 5, 5, 9, 12
    the range [3, 9) holds the references 2, 3, 4 and 5, and the call
    returns none of them. *)
Theorem find_range_returns_nothing :
  (forall idx lo hi values,
     find_range idx lo hi values = if lo <? hi then Ok values else Fatal) /\
  exists idx,
    build scenario_table 0 = Ok idx /\
    find_range idx 3 9 [] = Ok [] /\
    scan_range (container_ idx) 3 9 = [2; 3; 4; 5].
Proof.
  split.
  - apply find_range_body.
  - eexists. repeat split; reflexivity.
Qed.

(** ** The loop budgets are never exhausted *)

Lemma fuel_free_Ok {A : Type} (a : A) : fuel_free (Ok a).
Proof. discriminate. Qed.

Lemma fuel_free_Fatal {A : Type} : fuel_free (@Fatal A).
Proof. discriminate. Qed.

Lemma fuel_free_Undefined {A : Type} : fuel_free (@Undefined A).
Proof. discriminate. Qed.

Lemma fuel_free_bind {A B : Type} (m : outcome A) (k : A -> outcome B) :
  fuel_free m -> (forall a, m = Ok a -> fuel_free (k a)) -> fuel_free (bind m k).
Proof.
  intros Hm Hk. destruct m as [a| | |]; simpl; try discriminate.
  - now apply Hk.
  - now contradiction Hm.
Qed.

Lemma fuel_free_if {A : Type} (b : bool) (m1 m2 : outcome A) :
  fuel_free m1 -> fuel_free m2 -> fuel_free (if b then m1 else m2).
Proof. now destruct b. Qed.

Lemma fuel_free_at_index {A : Type} (a : list A) (i : Z) : fuel_free (at_index a i).
Proof. unfold at_index. destruct (i <? 0); [discriminate|]. destruct (a !! _); discriminate. Qed.

Lemma fuel_free_int_arith (x : Z) : fuel_free (int_arith x).
Proof. unfold int_arith. destruct (_ && _); discriminate. Qed.

Lemma fuel_free_udiv (a b : Z) : fuel_free (udiv a b).
Proof. unfold udiv. destruct (b =? 0); discriminate. Qed.

Lemma fuel_free_umod (a b : Z) : fuel_free (umod a b).
Proof. unfold umod. destruct (b =? 0); discriminate. Qed.

Lemma fuel_free_pow16 (e : Z) : fuel_free (pow16 e).
Proof. unfold pow16. destruct (e <=? 15); discriminate. Qed.

Lemma fuel_free_for_loop {S : Type} (body : Z -> S -> outcome S) (n : nat) (i : Z) (s : S) :
  (forall i s, fuel_free (body i s)) -> fuel_free (for_loop n i body s).
Proof.
  intros Hbody. revert i s. induction n as [|n IH]; intros i s; cbn [for_loop].
  - apply fuel_free_Ok.
  - apply fuel_free_bind; auto.
Qed.

Create HintDb fuel.
#[local] Hint Resolve fuel_free_Ok fuel_free_Fatal fuel_free_Undefined fuel_free_at_index
  fuel_free_int_arith fuel_free_udiv fuel_free_umod fuel_free_pow16 : fuel.

Ltac fuel_step :=
  first [ solve [auto with fuel]
        | apply fuel_free_bind; [|intros ? ?]
        | apply fuel_free_for_loop; intros ? ?
        | apply fuel_free_if ].

Section Fuel.

Variable idx : FastIndex.
Variable key : Z.

Lemma fuel_free_lookup_simd_block (pos : Z) : fuel_free (lookup_simd_block idx key pos).
Proof. unfold lookup_simd_block, mm_loadu_si128. repeat fuel_step. Qed.

Lemma fuel_free_lookup_cacheline_block (pos : Z) :
  fuel_free (lookup_cacheline_block idx key pos).
Proof.
  unfold lookup_cacheline_block.
  repeat (fuel_step || apply fuel_free_lookup_simd_block).
Qed.

Lemma fuel_free_find_inner_layers : fuel_free (find_inner_layers idx key).
Proof.
  unfold find_inner_layers.
  repeat (fuel_step || apply fuel_free_lookup_cacheline_block
          || match goal with
             | |- fuel_free (match ?p with pair _ _ => _ end) => destruct p
             end).
Qed.

Lemma quot2_between (b e : Z) : b <= e -> b <= Z.quot (b + e) 2 <= e.
Proof.
  intros Hbe. pose proof (Z.quot_rem' (b + e) 2) as Hqr.
  destruct (Z_le_gt_dec 0 (b + e)).
  - pose proof (Z.rem_bound_pos (b + e) 2). lia.
  - pose proof (Z.rem_bound_pos_neg (b + e) 2). lia.
Qed.

Lemma fuel_free_find_internal_rec (fuel : nat) (b e : Z) :
  e - b + 1 <= Z.of_nat fuel -> fuel_free (find_internal_rec idx fuel key b e).
Proof.
  revert b e. induction fuel as [|fuel IH]; intros b e Hfuel; cbn [find_internal_rec];
    destruct (Z.gtb_spec b e) as [Hgt|Hle]; try apply fuel_free_Ok; [lia|].
  apply fuel_free_bind; [auto with fuel|]. intros sum Hsum.
  apply int_arith_Ok in Hsum as [-> _].
  pose proof (quot2_between b e Hle) as Hmid.
  apply fuel_free_bind; [auto with fuel|]. intros r _.
  repeat apply fuel_free_if; [apply fuel_free_Ok| |].
  - apply fuel_free_bind; [auto with fuel|]. intros b' Hb'.
    apply int_arith_Ok in Hb' as [-> _]. apply IH. lia.
  - apply fuel_free_bind; [auto with fuel|]. intros e' He'.
    apply int_arith_Ok in He' as [-> _]. apply IH. lia.
Qed.

Lemma fuel_free_move_left (fuel : nat) (lhs : Z) (values : list Z) :
  lhs + 1 <= Z.of_nat fuel -> fuel_free (move_left idx fuel key lhs values).
Proof.
  revert lhs values. induction fuel as [|fuel IH]; intros lhs values Hfuel;
    cbn [move_left]; destruct (Z.geb_spec lhs 0) as [Hge|Hlt];
    try apply fuel_free_Ok; [lia|].
  apply fuel_free_bind; [auto with fuel|]. intros r _.
  apply fuel_free_if; [|apply fuel_free_Ok].
  apply fuel_free_bind; [auto with fuel|]. intros lhs' Hlhs'.
  apply int_arith_Ok in Hlhs' as [-> _]. apply IH. lia.
Qed.

Lemma fuel_free_move_right (fuel : nat) (rhs : Z) (values : list Z) :
  size_t_of (size_ idx - 1) - size_t_of rhs <= Z.of_nat fuel ->
  fuel_free (move_right idx fuel key rhs values).
Proof.
  revert rhs values. induction fuel as [|fuel IH]; intros rhs values Hfuel;
    cbn [move_right];
    destruct (Z.ltb_spec (size_t_of rhs) (size_t_of (size_ idx - 1))) as [Hlt|Hge];
    try apply fuel_free_Ok; [lia|].
  apply fuel_free_bind; [auto with fuel|]. intros r Hr.
  apply at_index_Ok in Hr as [Hrhs _].
  apply fuel_free_if; [|apply fuel_free_Ok].
  apply fuel_free_bind; [auto with fuel|]. intros rhs' Hrhs'.
  apply int_arith_Ok in Hrhs' as [-> Hrange]. apply IH.
  rewrite (size_t_of_small (rhs + 1)) by lia.
  rewrite (size_t_of_small rhs) in Hfuel by lia. lia.
Qed.

(** The budgets that [find] hands to its loops and to the binary search
    always suffice: no run of [find] ends for lack of fuel. *)
Lemma find_never_out_of_fuel (values : list Z) : find idx key values <> OutOfFuel.
Proof.
  change (fuel_free (find idx key values)). unfold find.
  apply fuel_free_if; [apply fuel_free_Ok|].
  apply fuel_free_if; [apply fuel_free_Ok|].
  apply fuel_free_if.
  { apply fuel_free_if; [|apply fuel_free_Ok].
    apply fuel_free_for_loop. intros i s. repeat fuel_step. }
  apply fuel_free_bind; [apply fuel_free_find_inner_layers|].
  intros [first second] _.
  apply fuel_free_bind.
  { apply fuel_free_if; [apply fuel_free_Ok|].
    apply fuel_free_find_internal_rec. lia. }
  intros offset_find _. apply fuel_free_if; [apply fuel_free_Ok|].
  apply fuel_free_bind; [auto with fuel|]. intros r _.
  apply fuel_free_bind; [apply fuel_free_move_left; lia|]. intros found _.
  apply fuel_free_move_right. lia.
Qed.

End Fuel.

(** * Further properties of the builder and of the lookups *)

(** ** The scanning loops of [find] *)

Lemma at_index_nat {A : Type} (a : list A) (n : nat) (x : A) :
  a !! n = Some x -> at_index a (Z.of_nat n) = Ok x.
Proof. intros H. apply at_index_Ok. rewrite Nat2Z.id. split; [lia | exact H]. Qed.

Lemma sorted_lookup (c : list KeyValue) (i j : nat) (a b : KeyValue) :
  StronglySorted key_le c -> c !! i = Some a -> c !! j = Some b -> (i <= j)%nat ->
  key_ a <= key_ b.
Proof.
  intros Hs. revert i j. induction Hs as [|x c Hs IH Hx]; intros i j Hi Hj Hij.
  - discriminate.
  - destruct i as [|i], j as [|j]; simpl in *.
    + injection Hi as <-. injection Hj as <-. lia.
    + injection Hi as <-. rewrite Forall_forall in Hx.
      apply Hx. eapply list_elem_of_lookup_2, Hj.
    + lia.
    + eapply IH; eauto. lia.
Qed.

Section Scans.

Variable idx : FastIndex.
Variable key : Z.
Hypothesis Hsize : size_ idx = Z.of_nat (length (container_ idx)).
Hypothesis Hsmall : size_ idx <= 2 ^ 30.

Lemma move_left_run (n : nat) (fuel : nat) (values : list Z) :
  (n <= length (container_ idx))%nat -> (n <= fuel)%nat ->
  move_left idx fuel key (Z.of_nat n - 1) values
  = Ok (values ++ (value_ <$> run key (reverse (take n (container_ idx))))).
Proof.
  revert fuel values. induction n as [|n IH]; intros fuel values Hn Hfuel.
  - destruct fuel; cbn [move_left]; simpl; now rewrite app_nil_r.
  - destruct fuel as [|fuel]; [lia|]. cbn [move_left].
    destruct (Z.geb_spec (Z.of_nat (S n) - 1) 0); [|lia].
    destruct (lookup_lt_is_Some_2 (container_ idx) n) as [r Hr]; [lia|].
    replace (Z.of_nat (S n) - 1) with (Z.of_nat n) by lia.
    rewrite (at_index_nat _ _ _ Hr). cbn [bind].
    rewrite (take_S_r _ _ _ Hr), reverse_snoc. cbn [run].
    destruct (key_ r =? key).
    + unfold int_arith.
      destruct (Z.leb_spec (- 2 ^ 31) (Z.of_nat n - 1)); [|lia].
      destruct (Z.ltb_spec (Z.of_nat n - 1) (2 ^ 31)); [|lia]. cbn [andb bind].
      rewrite IH by lia. now rewrite fmap_cons, <- app_assoc.
    + simpl. now rewrite app_nil_r.
Qed.

Lemma move_right_run (fuel : nat) (rhs : nat) (values : list Z) :
  (1 <= length (container_ idx))%nat -> (rhs <= length (container_ idx))%nat ->
  (length (container_ idx) - 1 - rhs <= fuel)%nat ->
  move_right idx fuel key (Z.of_nat rhs) values
  = Ok (values ++
        (value_ <$> run key (drop rhs (take (length (container_ idx) - 1) (container_ idx))))).
Proof.
  intros Hne. revert rhs values.
  induction fuel as [|fuel IH]; intros rhs values Hrhs Hfuel.
  - cbn [move_right]. rewrite !size_t_of_small by lia.
    destruct (Z.ltb_spec (Z.of_nat rhs) (size_ idx - 1)); [lia|].
    rewrite drop_ge by (rewrite length_take; lia). simpl. now rewrite app_nil_r.
  - cbn [move_right]. rewrite !size_t_of_small by lia.
    destruct (Z.ltb_spec (Z.of_nat rhs) (size_ idx - 1)) as [Hlt|Hge].
    + destruct (lookup_lt_is_Some_2 (container_ idx) rhs) as [r Hr]; [lia|].
      rewrite (at_index_nat _ _ _ Hr). cbn [bind].
      assert (Hr' : take (length (container_ idx) - 1) (container_ idx) !! rhs = Some r).
      { rewrite lookup_take_lt by lia. exact Hr. }
      rewrite (drop_S _ _ _ Hr'). cbn [run].
      destruct (key_ r =? key).
      * unfold int_arith.
        destruct (Z.leb_spec (- 2 ^ 31) (Z.of_nat rhs + 1)); [|lia].
        destruct (Z.ltb_spec (Z.of_nat rhs + 1) (2 ^ 31)); [|lia]. cbn [andb bind].
        replace (Z.of_nat rhs + 1) with (Z.of_nat (S rhs)) by lia.
        rewrite IH by lia. now rewrite fmap_cons, <- app_assoc.
      * simpl. now rewrite app_nil_r.
    + rewrite drop_ge by (rewrite length_take; lia). simpl. now rewrite app_nil_r.
Qed.

Lemma find_scans (o : nat) (r : KeyValue) (values : list Z) :
  container_ idx !! o = Some r ->
  (let* r := at_index (container_ idx) (Z.of_nat o) in
   let values := values ++ [value_ r] in
   let offset_find_lhs := int_of (size_t_of (Z.of_nat o - 1)) in
   let* values := move_left idx (Z.to_nat (offset_find_lhs + 1)) key offset_find_lhs values in
   let offset_find_rhs := int_of (size_t_of (Z.of_nat o + 1)) in
   move_right idx (Z.to_nat (size_t_of (size_ idx - 1) - size_t_of offset_find_rhs))
     key offset_find_rhs values)
  = Ok (values ++ value_ r :: (value_ <$> scanned_from (container_ idx) key o)).
Proof.
  intros Hr. pose proof (lookup_lt_Some _ _ _ Hr) as Hlt.
  rewrite (at_index_nat _ _ _ Hr). cbn [bind].
  assert (Hl : int_of (size_t_of (Z.of_nat o - 1)) = Z.of_nat o - 1).
  { destruct o as [|o].
    - reflexivity.
    - rewrite size_t_of_small by lia. unfold int_of. rewrite Z.mod_small; lia. }
  assert (Hrr : int_of (size_t_of (Z.of_nat o + 1)) = Z.of_nat (S o)).
  { rewrite size_t_of_small by lia. unfold int_of. rewrite Z.mod_small; lia. }
  rewrite Hl, Hrr.
  rewrite move_left_run by lia. cbn [bind].
  rewrite move_right_run; [|lia|lia|].
  - unfold scanned_from. now rewrite fmap_app, <- !app_assoc.
  - rewrite !size_t_of_small by lia. lia.
Qed.

End Scans.

Lemma filter_none (key : Z) (l : list KeyValue) :
  (forall i r, l !! i = Some r -> key_ r <> key) ->
  filter (fun r => key_ r = key) l = [].
Proof.
  induction l as [|r l IH]; intros H; [reflexivity|].
  rewrite filter_cons. destruct (decide (key_ r = key)) as [Hr|Hr].
  - now contradiction (H 0%nat r eq_refl).
  - apply IH. intros i x Hx. apply (H (S i) x Hx).
Qed.

Lemma filter_is_run (key : Z) (l : list KeyValue) :
  matches_first key l -> filter (fun r => key_ r = key) l = run key l.
Proof.
  induction l as [|r l IH]; intros HP; [reflexivity|].
  cbn [run]. rewrite filter_cons.
  destruct (decide (key_ r = key)) as [Hr|Hr].
  - rewrite (proj2 (Z.eqb_eq _ _) Hr). f_equal. apply IH.
    intros i j a b Hi Hj Hij Hb. apply (HP (S i) (S j) a b); auto. lia.
  - rewrite (proj2 (Z.eqb_neq _ _) Hr).
    apply filter_none. intros i x Hx Hk.
    apply Hr, (HP 0%nat (S i) r x); auto. lia.
Qed.

Lemma run_snoc (key : Z) (l : list KeyValue) (x : KeyValue) :
  run key (l ++ [x]) = run key l \/
  (key_ x = key /\ run key (l ++ [x]) = run key l ++ [x]).
Proof.
  induction l as [|r l IH]; cbn [run app].
  - destruct (Z.eqb_spec (key_ x) key); auto.
  - destruct (key_ r =? key); [|auto].
    destruct IH as [->|[Hx ->]]; auto.
Qed.

Lemma run_all_match (key : Z) (l : list KeyValue) :
  Forall (fun r => key_ r = key) (run key l).
Proof.
  induction l as [|r l IH]; cbn [run]; [constructor|].
  destruct (Z.eqb_spec (key_ r) key); [|constructor]. now constructor.
Qed.

Section Complete.

Variable c : list KeyValue.
Variable key : Z.
Hypothesis Hsorted : StronglySorted key_le c.

Lemma matches_first_after (o : nat) (r : KeyValue) :
  c !! o = Some r -> key_ r = key -> matches_first key (drop (S o) c).
Proof.
  intros Hr Hk i j a b Hi Hj Hij Hb. rewrite lookup_drop in Hi, Hj.
  pose proof (sorted_lookup c _ _ _ _ Hsorted Hr Hi ltac:(lia)).
  pose proof (sorted_lookup c _ _ _ _ Hsorted Hi Hj ltac:(lia)). lia.
Qed.

Lemma matches_first_before (o : nat) (r : KeyValue) :
  c !! o = Some r -> key_ r = key -> matches_first key (reverse (take o c)).
Proof.
  intros Hr Hk i j a b Hi Hj Hij Hb.
  apply reverse_lookup_Some in Hi as [Hi Hil], Hj as [Hj Hjl].
  rewrite length_take in *.
  rewrite lookup_take_lt in Hi, Hj by lia.
  pose proof (sorted_lookup c _ _ _ _ Hsorted Hj Hi ltac:(lia)).
  pose proof (sorted_lookup c _ _ _ _ Hsorted Hi Hr ltac:(lia)). lia.
Qed.

Lemma scanned_from_complete (o : nat) (r : KeyValue) :
  c !! o = Some r -> key_ r = key ->
  value_ r :: (value_ <$> scanned_from c key o) ≡ₚ scan_equal c key \/
  exists x, last c = Some x /\ key_ x = key /\ (S o < length c)%nat /\
    (value_ r :: (value_ <$> scanned_from c key o)) ++ [value_ x] ≡ₚ scan_equal c key.
Proof.
  intros Hr Hk. pose proof (lookup_lt_Some _ _ _ Hr) as Hlt.
  assert (Hscan : scan_equal c key ≡ₚ
            value_ r :: (value_ <$> (run key (reverse (take o c)) ++ run key (drop (S o) c)))).
  { unfold scan_equal. rewrite <- (take_drop_middle c o r Hr) at 1.
    rewrite filter_app, filter_cons. destruct (decide (key_ r = key)); [|contradiction].
    rewrite <- (filter_is_run key (drop (S o) c)) by (eapply matches_first_after; eauto).
    rewrite <- (filter_is_run key (reverse (take o c)))
      by (eapply matches_first_before; eauto).
    rewrite (filter_Permutation _ _ _ (reverse_Permutation (take o c))).
    rewrite !fmap_app, fmap_cons. now rewrite <- Permutation_middle. }
  unfold scanned_from.
  destruct (decide (S o = length c)) as [Hlast|Hnl].
  - left. rewrite Hscan.
    rewrite (drop_ge c) by lia.
    rewrite (drop_ge (take _ _)) by (rewrite length_take; lia). reflexivity.
  - destruct (lookup_lt_is_Some_2 c (length c - 1)) as [x Hx]; [lia|].
    assert (Hdrop : drop (S o) c = drop (S o) (take (length c - 1) c) ++ [x]).
    { rewrite <- (take_drop (length c - 1) c) at 1.
      rewrite drop_app_le by (rewrite length_take; lia).
      f_equal. rewrite (drop_S _ _ _ Hx).
      rewrite drop_ge by lia. reflexivity. }
    rewrite Hdrop in Hscan.
    destruct (run_snoc key (drop (S o) (take (length c - 1) c)) x) as [E|[Hxk E]];
      rewrite E in Hscan.
    + left. now rewrite Hscan.
    + right. exists x. split; [|split; [exact Hxk|split; [lia|]]].
      * rewrite <- (take_drop (length c - 1) c), (drop_S _ _ _ Hx).
        rewrite drop_ge by lia. apply last_snoc.
      * rewrite Hscan. rewrite app_assoc, !fmap_app. reflexivity.
Qed.

End Complete.

Lemma find_internal_sound (idx : FastIndex) (key : Z) (fuel : nat) (b e o : Z) :
  find_internal_rec idx fuel key b e = Ok o ->
  o = size_ idx \/
  (b <= o <= e /\ exists r, at_index (container_ idx) o = Ok r /\ key_ r = key).
Proof.
  revert b e. induction fuel as [|fuel IH]; intros b e; cbn [find_internal_rec];
    destruct (Z.gtb_spec b e) as [Hgt|Hle]; intros H;
    try (injection H as <-; now left); [discriminate|].
  apply bind_Ok in H as (sum & Esum & H). apply int_arith_Ok in Esum as [-> Hsum].
  pose proof (quot2_between b e Hle) as Hmid.
  apply bind_Ok in H as (r & Er & H).
  destruct (Z.eqb_spec key (key_ r)) as [Hk|Hk].
  - injection H as <-. right.
    pose proof (proj1 (at_index_Ok _ _ _) Er) as [H0 _].
    pose proof (Z.quot_rem' (b + e) 2) as Hqr.
    pose proof (Z.rem_bound_abs (b + e) 2 ltac:(lia)) as Hrem.
    rewrite size_t_of_small by lia. split; [lia|]. eauto.
  - destruct (key >? key_ r); apply bind_Ok in H as (x & Ex & H);
      apply int_arith_Ok in Ex as [-> _];
      apply IH in H as [->|[Hr Hx]]; auto; right; split; auto; lia.
Qed.

Lemma elem_of_take_1 {A : Type} (x : A) (n : nat) (l : list A) : x ∈ take n l -> x ∈ l.
Proof. intros H. apply elem_of_take in H as (i & Hi & _). eapply list_elem_of_lookup_2, Hi. Qed.

Lemma elem_of_drop_1 {A : Type} (x : A) (n : nat) (l : list A) : x ∈ drop n l -> x ∈ l.
Proof.
  intros H. apply list_elem_of_lookup_1 in H as [i Hi]. rewrite lookup_drop in Hi.
  eapply list_elem_of_lookup_2, Hi.
Qed.

Lemma run_absent (key : Z) (l : list KeyValue) :
  (forall r, r ∈ l -> key_ r <> key) -> run key l = [].
Proof.
  destruct l as [|r l]; [reflexivity|]. intros H. cbn [run].
  destruct (Z.eqb_spec (key_ r) key) as [Hk|]; [|reflexivity].
  now contradiction (H r (list_elem_of_here _ _)).
Qed.

Section Search.

Variable idx : FastIndex.
Variable key : Z.
Hypothesis Hwf : rebuilt idx.

Let c := container_ idx.

Lemma find_internal_rec_sorted (fuel : nat) (b e : Z) :
  0 <= b -> e < size_ idx -> e - b + 1 <= Z.of_nat fuel ->
  (exists (o : nat) r,
      find_internal_rec idx fuel key b e = Ok (Z.of_nat o) /\
      b <= Z.of_nat o <= e /\ c !! o = Some r /\ key_ r = key) \/
  (find_internal_rec idx fuel key b e = Ok (size_ idx) /\
   forall (i : nat) r, b <= Z.of_nat i <= e -> c !! i = Some r -> key_ r <> key).
Proof.
  destruct Hwf as (Hsize & Hsmall & Hsorted & _ & _).
  revert b e. induction fuel as [|fuel IH]; intros b e Hb He Hfuel.
  { right. cbn [find_internal_rec]. destruct (Z.gtb_spec b e); [|lia].
    split; [reflexivity | intros; lia]. }
  destruct (Z_le_gt_dec b e) as [Hle|Hgt].
  2:{ right. cbn [find_internal_rec]. destruct (Z.gtb_spec b e); [|lia].
      split; [reflexivity | intros; lia]. }
  pose proof (quot2_between b e Hle) as Hmid.
  set (mid := Z.quot (b + e) 2) in *.
  destruct (lookup_lt_is_Some_2 c (Z.to_nat mid)) as [r Hr]; [unfold c; lia|].
  assert (Hat : at_index (container_ idx) mid = Ok r)
    by (apply at_index_Ok; split; [lia | exact Hr]).
  assert (Hstep : find_internal_rec idx (S fuel) key b e =
            if key =? key_ r then Ok mid
            else if key >? key_ r then find_internal_rec idx fuel key (mid + 1) e
                 else find_internal_rec idx fuel key b (mid - 1)).
  { cbn [find_internal_rec]. destruct (Z.gtb_spec b e); [lia|].
    unfold int_arith.
    destruct (Z.leb_spec (- 2 ^ 31) (b + e)); [|lia].
    destruct (Z.ltb_spec (b + e) (2 ^ 31)); [|lia]. cbn [andb bind].
    fold mid. rewrite Hat. cbn [bind]. rewrite size_t_of_small by lia.
    destruct (Z.leb_spec (- 2 ^ 31) (mid + 1)); [|lia].
    destruct (Z.ltb_spec (mid + 1) (2 ^ 31)); [|lia].
    destruct (Z.leb_spec (- 2 ^ 31) (mid - 1)); [|lia].
    destruct (Z.ltb_spec (mid - 1) (2 ^ 31)); [|lia]. reflexivity. }
  rewrite Hstep.
  destruct (Z.eqb_spec key (key_ r)) as [Hk|Hk].
  - left. exists (Z.to_nat mid), r. rewrite Z2Nat.id by lia.
    repeat split; auto; lia.
  - destruct (Z.gtb_spec key (key_ r)) as [Hgt|Hlt].
    + destruct (IH (mid + 1) e) as [(o & x & E & Ho & Hx & Hxk)|[E Habs]]; try lia.
      * left. exists o, x. repeat split; auto; lia.
      * right. split; [exact E|]. intros i x Hi Hx.
        destruct (Z_le_gt_dec (Z.of_nat i) mid); [|apply (Habs i x); auto; lia].
        pose proof (sorted_lookup c i (Z.to_nat mid) x r Hsorted Hx Hr ltac:(lia)). lia.
    + destruct (IH b (mid - 1)) as [(o & x & E & Ho & Hx & Hxk)|[E Habs]]; try lia.
      * left. exists o, x. repeat split; auto; lia.
      * right. split; [exact E|]. intros i x Hi Hx.
        destruct (Z_le_gt_dec mid (Z.of_nat i)); [|apply (Habs i x); auto; lia].
        pose proof (sorted_lookup c (Z.to_nat mid) i r x Hsorted Hr Hx ltac:(lia)). lia.
Qed.

Lemma find_of_bracket (lo hi : nat) :
  key_min_ idx <= key <= key_max_ idx -> key_min_ idx <> key_max_ idx ->
  find_inner_layers idx key = Ok (Z.of_nat lo, Z.of_nat hi) ->
  (lo <= hi < length c)%nat ->
  ((exists i r, c !! i = Some r /\ key_ r = key) ->
   exists i r, (lo <= i <= hi)%nat /\ c !! i = Some r /\ key_ r = key) ->
  exists l, find idx key [] = Ok l /\
    (complete_or_last c key l \/
     (lo = hi /\ scan_equal c key = [] /\ exists r, c !! lo = Some r /\ l = [value_ r])).
Proof.
  intros Hin Hne Hrange Hlohi Hbracket.
  pose proof Hwf as (Hsize & Hsmall & Hsorted & _ & _).
  pose proof find_internal_rec_sorted as Hsearch.
  unfold c in *.
  unfold find. rewrite Hrange. cbn [bind].
  destruct (Z.eqb_spec (size_ idx) 0); [lia|].
  destruct (Z.gtb_spec key (key_max_ idx)); [lia|].
  destruct (Z.ltb_spec key (key_min_ idx)); [lia|]. cbn [orb].
  destruct (Z.eqb_spec (key_max_ idx) (key_min_ idx)); [congruence|].
  assert (Hfound : forall (o : nat) r, c !! o = Some r -> key_ r = key ->
            exists l,
              (let* r := at_index (container_ idx) (Z.of_nat o) in
               let values := [] ++ [value_ r] in
               let offset_find_lhs := int_of (size_t_of (Z.of_nat o - 1)) in
               let* values := move_left idx (Z.to_nat (offset_find_lhs + 1)) key
                                offset_find_lhs values in
               let offset_find_rhs := int_of (size_t_of (Z.of_nat o + 1)) in
               move_right idx (Z.to_nat (size_t_of (size_ idx - 1) - size_t_of offset_find_rhs))
                 key offset_find_rhs values) = Ok l /\ complete_or_last c key l).
  { intros o r Hr Hk. eexists. split.
    - apply (find_scans idx key Hsize ltac:(lia) o r [] Hr).
    - rewrite app_nil_l.
      destruct (scanned_from_complete c key Hsorted o r Hr Hk) as [Hp|(x & Hx & Hxk & _ & Hp)].
      + now left.
      + right. exists x. auto. }
  destruct (Z.eqb_spec (Z.of_nat lo) (Z.of_nat hi)) as [Heq|Hneq].
  - cbn [bind]. rewrite size_t_of_small by lia.
    destruct (Z.eqb_spec (Z.of_nat lo) (size_ idx)); [exfalso; lia|].
    destruct (lookup_lt_is_Some_2 (container_ idx) lo) as [r Hr]; [lia|].
    destruct (decide (key_ r = key)) as [Hk|Hk].
    + destruct (Hfound lo r Hr Hk) as (l & El & Hl). exists l. auto.
    + assert (Habs : forall x, x ∈ c -> key_ x <> key).
      { intros x Hx Hxk. apply list_elem_of_lookup_1 in Hx as [i Hi].
        destruct Hbracket as (j & y & Hj & Hy & Hyk); [eauto|].
        assert (j = lo) by lia. subst j. congruence. }
      eexists. split; [apply (find_scans idx key Hsize ltac:(lia) lo r [] Hr)|].
      right. split; [lia|]. split.
      * unfold scan_equal. rewrite filter_none; [reflexivity|].
        intros i x Hx. eapply Habs, list_elem_of_lookup_2, Hx.
      * exists r. split; [exact Hr|]. unfold scanned_from.
        rewrite !run_absent; [reflexivity| |].
        -- intros x Hx. eapply Habs, elem_of_take_1, elem_of_drop_1, Hx.
        -- intros x Hx. apply (proj1 (elem_of_reverse _ _)) in Hx.
           eapply Habs, elem_of_take_1, Hx.
  - unfold find_internal.
    destruct (Hsearch
                (Z.to_nat (Z.of_nat hi - Z.of_nat lo + 1)) (Z.of_nat lo) (Z.of_nat hi))
      as [(o & r & E & Ho & Hr & Hk)|[E Habs]]; try lia.
    + rewrite E. cbn [bind].
      pose proof (lookup_lt_Some _ _ _ Hr).
      destruct (Z.eqb_spec (Z.of_nat o) (size_ idx)); [exfalso; lia|].
      destruct (Hfound o r Hr Hk) as (l & El & Hl). exists l. auto.
    + rewrite E. cbn [bind]. rewrite Z.eqb_refl. exists []. split; [reflexivity|].
      left. left. unfold scan_equal. rewrite filter_none; [reflexivity|].
      intros i x Hx Hxk.
      destruct Hbracket as (j & y & Hj & Hy & Hyk); [eauto|].
      apply (Habs j y); auto. lia.
Qed.

End Search.

Lemma scan_equal_perm (c t : list KeyValue) (key : Z) :
  c ≡ₚ t -> scan_equal c key ≡ₚ scan_equal t key.
Proof. intros H. unfold scan_equal. now rewrite H. Qed.

Lemma filter_all (key : Z) (l : list KeyValue) :
  (forall r, r ∈ l -> key_ r = key) -> filter (fun r => key_ r = key) l = l.
Proof.
  induction l as [|r l IH]; intros H; [reflexivity|].
  rewrite filter_cons. destruct (decide (key_ r = key)) as [Hr|Hr].
  - f_equal. apply IH. intros x Hx. apply H. now apply list_elem_of_further.
  - contradiction Hr. apply H, list_elem_of_here.
Qed.

Lemma rebuilt_key_bounds (idx : FastIndex) (r : KeyValue) :
  rebuilt idx -> r ∈ container_ idx -> key_min_ idx <= key_ r <= key_max_ idx.
Proof.
  intros (Hsize & Hsmall & Hsorted & (a & Ha & Hmin) & (b & Hb & Hmax)) Hr.
  apply list_elem_of_lookup_1 in Hr as [i Hi].
  pose proof (lookup_lt_Some _ _ _ Hi).
  rewrite head_lookup in Ha. rewrite last_lookup in Hb.
  pose proof (sorted_lookup _ _ _ _ _ Hsorted Ha Hi ltac:(lia)).
  pose proof (sorted_lookup _ _ _ _ _ Hsorted Hi Hb ltac:(lia)). lia.
Qed.

Lemma build_rebuilt (t : list KeyValue) (nl : Z) (idx : FastIndex) :
  build t nl = Ok idx -> Z.of_nat (length t) <= 2 ^ 30 ->
  rebuilt idx /\ container_ idx ≡ₚ t /\ num_layers_ idx = nl /\
  geometry_ idx = mkGeometry 3 2 15 4 5 255 8 85.
Proof.
  intros Hbuild Hlen. unfold build in Hbuild.
  apply bind_Ok in Hbuild as (idx0 & Hnew & Hre).
  apply FastIndex_new_geometry in Hnew as (Et & Enl & Eg).
  apply reorganize_Ok in Hre
    as (_ & Hc & Hsize & Hnl & Hg & first & last & Hfirst & Hlast & Hmin & Hmax).
  assert (Hperm : container_ idx ≡ₚ t) by (rewrite Hc, Et; apply sort_by_key_perm).
  assert (Hl : length (container_ idx) = length t) by now rewrite Hperm.
  apply at_index_Ok in Hfirst as [_ Hfirst]. pose proof (lookup_lt_Some _ _ _ Hfirst).
  rewrite size_t_of_small in Hlast by lia.
  apply at_index_Ok in Hlast as [_ Hlast].
  split; [|split; [exact Hperm|split; [congruence|now rewrite Hg, Eg]]].
  split; [exact Hsize|]. split; [lia|]. split.
  - rewrite Hc. apply sort_by_key_sorted.
  - split.
    + exists first. rewrite head_lookup. auto.
    + exists last. rewrite last_lookup. split; [|exact Hmax].
      rewrite <- Hlast. f_equal. lia.
Qed.

Lemma find_rebuilt_trivial (idx : FastIndex) (key : Z) :
  rebuilt idx ->
  key < key_min_ idx \/ key > key_max_ idx \/ key_min_ idx = key_max_ idx ->
  exists l, find idx key [] = Ok l /\ l = scan_equal (container_ idx) key.
Proof.
  intros Hwf Hcase. pose proof (rebuilt_key_bounds idx) as Hb.
  pose proof Hwf as (Hsize & Hsmall & _).
  assert (Hout : key < key_min_ idx \/ key > key_max_ idx ->
                 exists l, find idx key [] = Ok l /\ l = scan_equal (container_ idx) key).
  { intros Ho. exists []. split; [apply find_early_return; tauto|].
    unfold scan_equal. rewrite filter_none; [reflexivity|].
    intros i r Hr. apply list_elem_of_lookup_2 in Hr. specialize (Hb r Hwf Hr). lia. }
  destruct Hcase as [H|[H|H]]; [auto|auto|].
  destruct (Z.eq_dec key (key_min_ idx)) as [->|Hne]; [|apply Hout; lia].
  destruct (find_single_key idx (key_min_ idx) [] Hsize ltac:(lia) eq_refl (eq_sym H))
    as [Hf _].
  eexists. split; [exact Hf|]. unfold scan_equal. rewrite filter_all; [reflexivity|].
  intros r Hr. specialize (Hb r Hwf Hr). lia.
Qed.

Lemma find_rebuilt_without_tree (idx : FastIndex) (key : Z) :
  rebuilt idx -> num_layers_ idx = 0 ->
  exists l, find idx key [] = Ok l /\ complete_or_last (container_ idx) key l.
Proof.
  intros Hwf Hnl.
  destruct (Z_lt_ge_dec key (key_min_ idx)) as [H1|H1];
    [destruct (find_rebuilt_trivial idx key Hwf) as (l & E & ->); [auto|];
     exists (scan_equal (container_ idx) key); split; [exact E | now left]|].
  destruct (Z_lt_ge_dec (key_max_ idx) key) as [H2|H2];
    [destruct (find_rebuilt_trivial idx key Hwf) as (l & E & ->); [right; left; lia|];
     exists (scan_equal (container_ idx) key); split; [exact E | now left]|].
  destruct (Z.eq_dec (key_min_ idx) (key_max_ idx)) as [H3|H3];
    [destruct (find_rebuilt_trivial idx key Hwf) as (l & E & ->); [auto|];
     exists (scan_equal (container_ idx) key); split; [exact E | now left]|].
  pose proof Hwf as (Hsize & Hsmall & Hsorted & (a & Ha & Hmin) & (b & Hb & Hmax)).
  rewrite head_lookup in Ha. rewrite last_lookup in Hb.
  assert (Hlen : (2 <= length (container_ idx))%nat).
  { destruct (length (container_ idx)) as [|[|n]] eqn:El; [lia| |lia].
    simpl in Hb. congruence. }
  destruct (find_of_bracket idx key Hwf 0 (length (container_ idx) - 1))
    as (l & E & [Hl|(Habs & _)]); try lia.
  - unfold find_inner_layers. rewrite Hnl. cbn [Z.eqb].
    rewrite size_t_of_small by lia. unfold int_of.
    rewrite !Z.mod_small by lia. do 3 f_equal; lia.
  - intros (i & r & Hr & Hk). exists i, r. pose proof (lookup_lt_Some _ _ _ Hr).
    split; [lia|auto].
  - exists l. auto.
Qed.

(** ** Cache-line blocks *)

Lemma key_at_lookup (c : list KeyValue) (i : Z) :
  0 <= i < Z.of_nat (length c) ->
  exists r, at_index c i = Ok r /\ c !! Z.to_nat i = Some r /\ key_at c i = key_ r.
Proof.
  intros Hi. destruct (at_index_in_range c i Hi) as [r Hr].
  exists r. split; [exact Hr|]. split; [now apply at_index_Ok in Hr|].
  unfold key_at. now rewrite Hr.
Qed.

Lemma key_at_sorted (c : list KeyValue) (i j : Z) :
  StronglySorted key_le c -> 0 <= i <= j -> j < Z.of_nat (length c) ->
  key_at c i <= key_at c j.
Proof.
  intros Hs Hij Hj.
  destruct (key_at_lookup c i) as (a & _ & Ha & ->); [lia|].
  destruct (key_at_lookup c j) as (b & _ & Hb & ->); [lia|].
  eapply sorted_lookup; eauto. lia.
Qed.

Lemma bind_ret {A B : Type} (a : A) (k : A -> outcome B) : bind (Ok a) k = k a.
Proof. reflexivity. Qed.

Lemma list_lookup_insert_same {A : Type} (l : list A) (i j : nat) (x : A) :
  i = j -> (i < length l)%nat -> <[i:=x]> l !! j = Some x.
Proof. intros <- Hi. now apply list_lookup_insert_eq. Qed.

Section Block.

Variable idx : FastIndex.
Hypothesis Hcap : simd_key_capacity_ (geometry_ idx) = 3.
Hypothesis Hlen : Z.of_nat (length (container_ idx)) <= 2 ^ 30.

Let c := container_ idx.

Lemma construct_simd_block_Ok (nodes : list Z) (pos : nat) (lhs rhs : Z) :
  0 <= lhs -> lhs + 4 <= rhs + 1 -> rhs < Z.of_nat (length (container_ idx)) ->
  (pos + 2 < length nodes)%nat -> Z.of_nat (length nodes) <= 2 ^ 62 ->
  construct_simd_block idx nodes (Z.of_nat pos) lhs rhs
  = Ok (<[(pos + 2)%nat := key_at c (lhs + 3 * ((rhs - lhs + 1) / 4) - 1)]>
          (<[(pos + 1)%nat := key_at c (lhs + (rhs - lhs + 1) / 4 - 1)]>
             (<[pos := key_at c (lhs + 2 * ((rhs - lhs + 1) / 4) - 1)]> nodes))).
Proof.
  intros Hlhs Hw Hrhs Hpos Hpos62. unfold c.
  set (step := (rhs - lhs + 1) / 4).
  assert (Hstep : 1 <= step /\ 4 * step <= rhs - lhs + 1).
  { unfold step. split; [apply Z.div_le_lower_bound; lia | apply Z.mul_div_le; lia]. }
  destruct (key_at_lookup (container_ idx) (lhs + step - 1)) as (r1 & Hr1 & _ & ->); [lia|].
  destruct (key_at_lookup (container_ idx) (lhs + 2 * step - 1)) as (r2 & Hr2 & _ & ->); [lia|].
  destruct (key_at_lookup (container_ idx) (lhs + 3 * step - 1)) as (r3 & Hr3 & _ & ->); [lia|].
  unfold construct_simd_block. rewrite Hcap. cbn [Z.eqb Pos.eqb ASSERT bind].
  rewrite (size_t_of_small (rhs - lhs + 1)) by lia. fold step.
  rewrite (size_t_of_small (lhs + 2 * step - 1)) by lia. rewrite Hr2. cbn [bind].
  rewrite (size_t_of_small (Z.of_nat pos + 0)) by lia.
  rewrite Z.add_0_r, store_Ok by lia. cbn [bind]. rewrite Nat2Z.id.
  replace (lhs + 1 * step - 1) with (lhs + step - 1) by lia.
  rewrite (size_t_of_small (lhs + step - 1)) by lia. rewrite Hr1. cbn [bind].
  rewrite (size_t_of_small (Z.of_nat pos + 1)) by lia.
  rewrite store_Ok by (rewrite length_insert; lia). cbn [bind].
  rewrite (size_t_of_small (lhs + 3 * step - 1)) by lia. rewrite Hr3. cbn [bind].
  rewrite (size_t_of_small (Z.of_nat pos + 2)) by lia.
  rewrite store_Ok by (rewrite !length_insert; lia).
  replace (Z.to_nat (Z.of_nat pos + 1)) with (pos + 1)%nat by lia.
  replace (Z.to_nat (Z.of_nat pos + 2)) with (pos + 2)%nat by lia.
  reflexivity.
Qed.

Ltac child pos q k :=
  match goal with
  | |- context [construct_simd_block idx ?n (size_t_of ?p) (size_t_of ?l) (size_t_of ?r)] =>
      rewrite (size_t_of_small p), (size_t_of_small l), (size_t_of_small r) by lia;
      replace p with (Z.of_nat (pos + k)) by lia;
      rewrite (construct_simd_block_Ok n _ l r) by (rewrite ?length_insert; lia);
      rewrite bind_ret; cbv beta;
      replace ((r - l + 1) / 4) with q by (apply Z.div_unique_exact; lia)
  end.

Lemma construct_cacheline_block_Ok (nodes : list Z) (pos : nat) (lhs q : Z) :
  0 <= lhs -> 1 <= q -> lhs + 16 * q <= Z.of_nat (length (container_ idx)) ->
  (pos + 14 < length nodes)%nat -> Z.of_nat (length nodes) <= 2 ^ 62 ->
  exists nodes',
    construct_cacheline_block idx nodes (Z.of_nat pos) lhs (lhs + 16 * q - 1) = Ok nodes' /\
    length nodes' = length nodes /\
    holds_block nodes' pos c lhs q /\
    forall i, (i < pos \/ pos + 15 <= i)%nat -> nodes' !! i = nodes !! i.
Proof.
  intros Hlhs Hq Hrhs Hpos Hpos62.
  unfold construct_cacheline_block.
  replace (lhs + 16 * q - 1 - lhs + 1) with (16 * q) by lia.
  rewrite (size_t_of_small (16 * q)) by lia.
  replace (16 * q / 4) with (4 * q) by (apply Z.div_unique_exact; lia).
  rewrite construct_simd_block_Ok by lia. rewrite bind_ret. cbn [for_loop].
  replace (lhs + 16 * q - 1 - lhs + 1) with (16 * q) by lia.
  replace (16 * q / 4) with (4 * q) by (apply Z.div_unique_exact; lia).
  child pos q 3%nat. child pos q 6%nat. child pos q 9%nat. child pos q 12%nat.
  eexists. split; [reflexivity|].
  split; [now rewrite !length_insert|]. split.
  - intros d j Hd.
    do 15 (destruct d as [|d]; [injection Hd as <-;
      rewrite ?list_lookup_insert_ne by lia;
      rewrite list_lookup_insert_same by (rewrite ?length_insert; lia);
      f_equal; f_equal; lia|]).
    discriminate.
  - intros i Hi. rewrite !list_lookup_insert_ne by lia. reflexivity.
Qed.

End Block.

Lemma key_at_int (c : list KeyValue) (i : Z) : int_keys c -> int_key (key_at c i).
Proof.
  intros Hc. unfold key_at. destruct (at_index c i) as [r| | |] eqn:E;
    try (unfold int_key; lia).
  apply at_index_Ok in E as [_ E].
  exact (proj1 (Forall_lookup _ c) Hc _ _ E).
Qed.

Lemma load_lanes (nodes : list Z) (pos : nat) (p : Z) (a b c d : Z) :
  p = Z.of_nat pos ->
  nodes !! pos = Some a -> nodes !! (pos + 1)%nat = Some b ->
  nodes !! (pos + 2)%nat = Some c -> nodes !! (pos + 3)%nat = Some d ->
  mm_loadu_si128 nodes p = Ok (lanes a b c d).
Proof.
  intros -> Ha Hb Hc Hd. unfold mm_loadu_si128.
  rewrite (at_index_nat _ _ _ Ha). cbn [bind].
  replace (Z.of_nat pos + 1) with (Z.of_nat (pos + 1)) by lia.
  rewrite (at_index_nat _ _ _ Hb). cbn [bind].
  replace (Z.of_nat pos + 2) with (Z.of_nat (pos + 2)) by lia.
  rewrite (at_index_nat _ _ _ Hc). cbn [bind].
  replace (Z.of_nat pos + 3) with (Z.of_nat (pos + 3)) by lia.
  now rewrite (at_index_nat _ _ _ Hd).
Qed.

Lemma lookup_simd_block_ordered (idx : FastIndex) (key : Z) (pos p1 p2 p3 : nat)
    (p f0 f1 f2 f3 : Z) :
  p = Z.of_nat pos ->
  inner_nodes_ idx !! pos = Some f0 -> inner_nodes_ idx !! p1 = Some f1 ->
  inner_nodes_ idx !! p2 = Some f2 -> inner_nodes_ idx !! p3 = Some f3 ->
  (p1 = pos + 1 /\ p2 = pos + 2 /\ p3 = pos + 3)%nat ->
  f1 <= f0 <= f2 ->
  int_key key -> int_key f0 -> int_key f1 -> int_key f2 ->
  (key <= f1 /\ lookup_simd_block idx key p = Ok 0) \/
  (f1 < key <= f0 /\ lookup_simd_block idx key p = Ok 1) \/
  (f0 < key <= f2 /\ lookup_simd_block idx key p = Ok 2) \/
  (f2 < key /\ lookup_simd_block idx key p = Ok 3).
Proof.
  intros Hp H0 H1 H2 H3 (-> & -> & ->) Hord Ik I0 I1 I2.
  rewrite (lookup_simd_block_mask idx key p f0 f1 f2 f3)
    by (solve [eapply load_lanes; eauto] || assumption).
  unfold comparison_mask.
  destruct (Z.gtb_spec key f0), (Z.gtb_spec key f1), (Z.gtb_spec key f2);
    try (exfalso; lia); cbn.
  - right. right. right. split; [lia | reflexivity].
  - right. right. left. split; [lia | reflexivity].
  - right. left. split; [lia | reflexivity].
  - left. split; [lia | reflexivity].
Qed.

Ltac finish_branch F :=
  match goal with
  | |- exists B, Ok (size_t_of ?e) = Ok B /\ _ =>
      let v := eval vm_compute in (size_t_of e) in
      exists v; split; [vm_compute; reflexivity|];
      repeat match goal with
             | |- context [F (?a + 1)] =>
                 let w := eval vm_compute in (a + 1) in change (a + 1) with w
             end;
      repeat split; intros; lia
  end.

Section BlockLookup.

Variable idx : FastIndex.
Variable key : Z.
Hypothesis Hsorted : StronglySorted key_le (container_ idx).
Hypothesis Hlen : Z.of_nat (length (container_ idx)) <= 2 ^ 30.
Hypothesis Hnodes : Z.of_nat (length (inner_nodes_ idx)) <= 2 ^ 62.
Hypothesis Hkey : int_key key.
Hypothesis Hkeys : int_keys (container_ idx).

Let c := container_ idx.

Lemma lookup_cacheline_block_bracket (pos : nat) (lhs q : Z) :
  holds_block (inner_nodes_ idx) pos c lhs q ->
  (pos + 15 < length (inner_nodes_ idx))%nat ->
  0 <= lhs -> 1 <= q -> lhs + 16 * q <= Z.of_nat (length (container_ idx)) ->
  exists B,
    lookup_cacheline_block idx key (Z.of_nat pos) = Ok B /\ 0 <= B <= 15 /\
    (1 <= B -> key_at c (lhs + B * q - 1) < key) /\
    (B <= 14 -> key <= key_at c (lhs + (B + 1) * q - 1)).
Proof.
  intros Hblock Hpos Hlhs Hq Hrhs.
  destruct (lookup_lt_is_Some_2 (inner_nodes_ idx) (pos + 15)) as [pad Hpad]; [lia|].
  remember (fun j => key_at c (lhs + j * q - 1)) as F eqn:HF.
  assert (Hmono : forall j j', 1 <= j <= 14 -> j' = j + 1 -> F j <= F j').
  { intros j j' Hj ->. subst F. unfold c.
    pose proof (Z.mul_le_mono_nonneg_r 1 j q ltac:(lia) ltac:(lia)).
    pose proof (Z.mul_le_mono_nonneg_r (j + 1) 15 q ltac:(lia) ltac:(lia)).
    apply key_at_sorted; [exact Hsorted| |]; lia. }
  assert (HB : forall d j, slot_boundary !! d = Some j ->
                           inner_nodes_ idx !! (pos + d)%nat = Some (F j)).
  { intros d j Hd. subst F. now apply Hblock. }
  assert (HI : forall j, int_key (F j)).
  { intros j. subst F. now apply key_at_int. }
  assert (Hgoal : exists B,
    lookup_cacheline_block idx key (Z.of_nat pos) = Ok B /\ 0 <= B <= 15 /\
    (1 <= B -> F B < key) /\ (B <= 14 -> key <= F (B + 1))).
  2:{ destruct Hgoal as (B & E & HBr & Hlo & Hhi). exists B. subst F. auto. }
  clear HF Hblock.
  pose proof (HB 0%nat 8 eq_refl) as S0. pose proof (HB 1%nat 4 eq_refl) as S1.
  pose proof (HB 2%nat 12 eq_refl) as S2. pose proof (HB 3%nat 2 eq_refl) as S3.
  pose proof (HB 4%nat 1 eq_refl) as S4. pose proof (HB 5%nat 3 eq_refl) as S5.
  pose proof (HB 6%nat 6 eq_refl) as S6. pose proof (HB 7%nat 5 eq_refl) as S7.
  pose proof (HB 8%nat 7 eq_refl) as S8. pose proof (HB 9%nat 10 eq_refl) as S9.
  pose proof (HB 10%nat 9 eq_refl) as S10. pose proof (HB 11%nat 11 eq_refl) as S11.
  pose proof (HB 12%nat 14 eq_refl) as S12. pose proof (HB 13%nat 13 eq_refl) as S13.
  pose proof (HB 14%nat 15 eq_refl) as S14.
  pose proof (Hmono 1 2 ltac:(lia) eq_refl) as M1. pose proof (Hmono 2 3 ltac:(lia) eq_refl) as M2.
  pose proof (Hmono 3 4 ltac:(lia) eq_refl) as M3. pose proof (Hmono 4 5 ltac:(lia) eq_refl) as M4.
  pose proof (Hmono 5 6 ltac:(lia) eq_refl) as M5. pose proof (Hmono 6 7 ltac:(lia) eq_refl) as M6.
  pose proof (Hmono 7 8 ltac:(lia) eq_refl) as M7. pose proof (Hmono 8 9 ltac:(lia) eq_refl) as M8.
  pose proof (Hmono 9 10 ltac:(lia) eq_refl) as M9. pose proof (Hmono 10 11 ltac:(lia) eq_refl) as M10.
  pose proof (Hmono 11 12 ltac:(lia) eq_refl) as M11. pose proof (Hmono 12 13 ltac:(lia) eq_refl) as M12.
  pose proof (Hmono 13 14 ltac:(lia) eq_refl) as M13. pose proof (Hmono 14 15 ltac:(lia) eq_refl) as M14.
  rewrite Nat.add_0_r in S0. clear HB Hmono.
  unfold lookup_cacheline_block.
  destruct (lookup_simd_block_ordered idx key pos _ _ _ (Z.of_nat pos) (F 8) (F 4) (F 12) (F 2)
              eq_refl S0 S1 S2 S3 ltac:(lia) ltac:(lia)
              Hkey (HI _) (HI _) (HI _)) as [[Hr ->]|[[Hr ->]|[[Hr ->]|[Hr ->]]]];
    cbn [bind];
    match goal with
    | |- context [lookup_simd_block idx key (size_t_of ?p)] =>
        rewrite (size_t_of_small p) by lia
    end.
  - destruct (lookup_simd_block_ordered idx key (pos + 3) _ _ _ (Z.of_nat pos + 3 * (0 + 1))
                (F 2) (F 1) (F 3) (F 6) ltac:(lia) S3 S4 S5 S6 ltac:(lia) ltac:(lia)
                Hkey (HI _) (HI _) (HI _))
      as [[Hc ->]|[[Hc ->]|[[Hc ->]|[Hc ->]]]];
      cbn [bind]; finish_branch F.
  - destruct (lookup_simd_block_ordered idx key (pos + 6) _ _ _ (Z.of_nat pos + 3 * (1 + 1))
                (F 6) (F 5) (F 7) (F 10) ltac:(lia) S6 S7 S8 S9 ltac:(lia) ltac:(lia)
                Hkey (HI _) (HI _) (HI _))
      as [[Hc ->]|[[Hc ->]|[[Hc ->]|[Hc ->]]]];
      cbn [bind]; finish_branch F.
  - destruct (lookup_simd_block_ordered idx key (pos + 9) _ _ _ (Z.of_nat pos + 3 * (2 + 1))
                (F 10) (F 9) (F 11) (F 14) ltac:(lia) S9 S10 S11 S12 ltac:(lia) ltac:(lia)
                Hkey (HI _) (HI _) (HI _))
      as [[Hc ->]|[[Hc ->]|[[Hc ->]|[Hc ->]]]];
      cbn [bind]; finish_branch F.
  - destruct (lookup_simd_block_ordered idx key (pos + 12) _ _ _ (Z.of_nat pos + 3 * (3 + 1))
                (F 14) (F 13) (F 15) pad ltac:(lia) S12 S13 S14 Hpad ltac:(lia) ltac:(lia)
                Hkey (HI _) (HI _) (HI _))
      as [[Hc ->]|[[Hc ->]|[[Hc ->]|[Hc ->]]]];
      cbn [bind]; finish_branch F.
Qed.

End BlockLookup.

(** ** The levels of the tree *)

Lemma pw_S (k : nat) : pw (S k) = 16 * pw k.
Proof. unfold pw. rewrite Nat2Z.inj_succ, Z.pow_succ_r by lia. reflexivity. Qed.

Lemma pw_pos (k : nat) : 1 <= pw k.
Proof. unfold pw. pose proof (Z.pow_pos_nonneg 16 (Z.of_nat k)). lia. Qed.

Lemma pw_mono (a b : nat) : (a <= b)%nat -> pw a <= pw b.
Proof. intros H. unfold pw. apply Z.pow_le_mono_r; lia. Qed.

Lemma pw_small (L : nat) : pw L <= 2 ^ 30 -> (L <= 7)%nat.
Proof.
  intros H. destruct (le_gt_dec L 7) as [|Hgt]; [assumption|].
  pose proof (pw_mono 8 L ltac:(lia)) as H8. change (pw 8) with 4294967296 in H8. lia.
Qed.

Lemma level_base_bound (i : nat) : 0 <= level_base i /\ 15 * level_base i = 16 * (pw i - 1).
Proof.
  induction i as [|i IH]; [split; reflexivity|].
  cbn [level_base]. rewrite pw_S. pose proof (pw_pos i). lia.
Qed.

Lemma level_base_mono (a b : nat) : (a <= b)%nat -> level_base a <= level_base b.
Proof.
  induction 1 as [|b Hab IH]; [lia|]. cbn [level_base]. pose proof (pw_pos b). lia.
Qed.

Lemma for_loop_invariant {St : Type} (Inv : Z -> St -> Prop) (n : nat) (a : Z)
    (body : Z -> St -> outcome St) (s : St) :
  Inv a s ->
  (forall i s, a <= i < a + Z.of_nat n -> Inv i s ->
               exists s', body i s = Ok s' /\ Inv (i + 1) s') ->
  exists s', for_loop n a body s = Ok s' /\ Inv (a + Z.of_nat n) s'.
Proof.
  revert a s. induction n as [|n IH]; intros a s Hinv Hbody.
  - exists s. split; [reflexivity|]. now rewrite Z.add_0_r.
  - cbn [for_loop].
    destruct (Hbody a s ltac:(lia) Hinv) as (s1 & E1 & Hinv1). rewrite E1. cbn [bind].
    destruct (IH (a + 1) s1 Hinv1) as (s' & E' & Hinv').
    { intros i s2 Hi. apply Hbody. lia. }
    exists s'. split; [exact E'|]. now replace (a + Z.of_nat (S n)) with (a + 1 + Z.of_nat n) by lia.
Qed.

Lemma pw_split (k L : nat) : (k <= L)%nat -> pw L = pw k * pw (L - k).
Proof.
  intros H. unfold pw. rewrite <- Z.pow_add_r by lia. f_equal. lia.
Qed.

Lemma holds_block_frame (nodes nodes' : list Z) (pos : nat) (c : list KeyValue) (lhs q : Z) :
  holds_block nodes pos c lhs q ->
  (forall i, (pos <= i < pos + 15)%nat -> nodes' !! i = nodes !! i) ->
  holds_block nodes' pos c lhs q.
Proof.
  intros H Hframe d j Hd. pose proof (lookup_lt_Some _ _ _ Hd) as Hlt.
  change (length slot_boundary) with 15%nat in Hlt.
  rewrite Hframe by lia. now apply H.
Qed.

Section TreeBuild.

Variable idx : FastIndex.
Variable L : nat.
Variable m : Z.
Hypothesis Hcap : simd_key_capacity_ (geometry_ idx) = 3.
Hypothesis Hdepth : cacheline_depth_ (geometry_ idx) = 4.
Hypothesis HL : (1 <= L)%nat.
Hypothesis Hnl : num_layers_ idx = 4 * Z.of_nat L.
Hypothesis Hsize : size_ idx = Z.of_nat (length (container_ idx)).
Hypothesis Hsmall : size_ idx <= 2 ^ 30.
Hypothesis Hm : 1 <= m /\ pw L * m <= size_ idx < pw L * (m + 1).

Let c := container_ idx.

Lemma tree_levels_small : (L <= 7)%nat.
Proof. apply pw_small. pose proof (pw_pos L). nia. Qed.

Lemma tree_size_mod : size_ idx mod pw L = size_ idx - pw L * m.
Proof.
  pose proof (pw_pos L). symmetry. apply (Z.mod_unique_pos _ _ m); lia.
Qed.

Lemma tree_width (k : nat) :
  (k <= L)%nat -> pw L * m / pw k = pw (L - k) * m.
Proof.
  intros Hk. rewrite (pw_split k L Hk). pose proof (pw_pos k).
  rewrite <- Z.mul_assoc, Z.mul_comm, Z.div_mul by lia. reflexivity.
Qed.

Lemma level_base_small (k : nat) : (k <= L)%nat -> 0 <= level_base k <= 2 ^ 31.
Proof.
  intros Hk. pose proof (level_base_bound k) as [H0 H15].
  pose proof (pw_mono k L Hk). pose proof (pw_pos L). split; [lia|]. nia.
Qed.

Lemma construct_level (k : nat) (nodes : list Z) :
  (1 <= k < L)%nat ->
  length nodes = Z.to_nat (level_base L) -> blocks_upto nodes c L m k ->
  exists nodes',
    for_loop (Z.to_nat (pw k)) 0
      (fun j '(nodes, current_pos) =>
         let* nodes := construct_cacheline_block idx nodes current_pos
                         (size_t_of (pw (L - k) * m * j))
                         (size_t_of (pw (L - k) * m * (j + 1) - 1)) in
         Ok (nodes, size_t_of (current_pos + 16)))
      (nodes, level_base k)
    = Ok (nodes', level_base (S k)) /\
    length nodes' = Z.to_nat (level_base L) /\ blocks_upto nodes' c L m (S k).
Proof.
  intros Hk Hlen Hblocks.
  pose proof (pw_pos k) as Hpk. pose proof (pw_pos (L - k - 1)) as Hq1.
  assert (Hw : pw (L - k) = 16 * pw (L - k - 1)).
  { rewrite <- pw_S. f_equal. lia. }
  pose proof (level_base_small (S k) ltac:(lia)) as Hb1.
  pose proof (level_base_small k ltac:(lia)) as Hb0.
  pose proof (level_base_small L ltac:(lia)) as HbL.
  pose proof (level_base_mono (S k) L ltac:(lia)) as Hmono. cbn [level_base] in Hmono, Hb1.
  pose proof (pw_split k L ltac:(lia)) as Hsplit.
  match goal with
  | |- context [for_loop ?n ?a ?body ?s] =>
      destruct (for_loop_invariant
        (fun j (st : list Z * Z) =>
           0 <= j <= pw k /\ snd st = level_base k + 16 * j /\
           length (fst st) = Z.to_nat (level_base L) /\ blocks_upto (fst st) c L m k /\
           forall j', 0 <= j' < j ->
             holds_block (fst st) (Z.to_nat (level_base k + 16 * j')) c
               (pw (L - k) * m * j') (pw (L - k - 1) * m)) n a body s)
        as ([nodes' cp'] & E & Hj & Hcp & Hlen' & Hold & Hnew); [| |rewrite E]
  end.
  - cbn [fst snd]. repeat split; auto; try lia.
  - intros j [nd cp] Hj (Hj0 & Hcp & Hl & Hold & Hnew). cbn [fst snd] in *. subst cp.
    assert (Hjk : j + 1 <= pw k) by lia.
    assert (Hrange : pw (L - k) * m * (j + 1) <= size_ idx).
    { assert (pw (L - k) * m * (j + 1) <= pw (L - k) * m * pw k).
      { apply Z.mul_le_mono_nonneg_l; [|lia]. pose proof (pw_pos (L - k)). nia. }
      nia. }
    assert (Hlhs0 : 0 <= pw (L - k) * m * j) by (pose proof (pw_pos (L - k)); nia).
    rewrite (size_t_of_small (pw (L - k) * m * j)) by lia.
    rewrite (size_t_of_small (pw (L - k) * m * (j + 1) - 1)) by nia.
    replace (pw (L - k) * m * (j + 1) - 1)
      with (pw (L - k) * m * j + 16 * (pw (L - k - 1) * m) - 1) by (rewrite Hw; ring).
    assert (Hq : 1 <= pw (L - k - 1) * m) by nia.
    assert (Hfit : pw (L - k) * m * j + 16 * (pw (L - k - 1) * m)
                   <= Z.of_nat (length (container_ idx))).
    { rewrite Hw in Hrange. lia. }
    assert (Hposn : (Z.to_nat (level_base k + 16 * j) + 14 < length nd)%nat) by lia.
    assert (Hndlen : Z.of_nat (length nd) <= 2 ^ 62) by lia.
    destruct (construct_cacheline_block_Ok idx Hcap ltac:(lia) nd
                (Z.to_nat (level_base k + 16 * j)) (pw (L - k) * m * j) (pw (L - k - 1) * m)
                Hlhs0 Hq Hfit Hposn Hndlen)
      as (nd' & E' & Hl' & Hblock & Hframe).
    rewrite Z2Nat.id in E' by lia.
    rewrite E'. cbn [bind]. eexists. split; [reflexivity|]. cbn [fst snd].
    rewrite size_t_of_small by lia.
    split; [lia|]. split; [lia|]. split; [lia|]. split.
    + intros i j0 Hi Hj0'. eapply holds_block_frame; [now apply Hold|].
      intros p Hp. apply Hframe.
      pose proof (level_base_mono (S i) k ltac:(lia)) as Hik. cbn [level_base] in Hik.
      pose proof (level_base_bound i) as [Hbi _]. lia.
    + intros j' Hj'. destruct (Z.eq_dec j' j) as [->|Hne]; [exact Hblock|].
      eapply holds_block_frame; [apply Hnew; lia|].
      intros p Hp. apply Hframe. lia.
  - cbn [fst snd] in *. rewrite Z.add_0_l, Z2Nat.id in * by lia.
    subst cp'. cbn [level_base]. exists nodes'. split; [reflexivity|]. split; [exact Hlen'|].
    intros i j Hi Hj'. destruct (decide (i = k)) as [->|Hne].
    + apply Hnew. lia.
    + apply Hold; [lia|exact Hj'].
Qed.

Lemma construct_inner_layers_Ok :
  exists nodes,
    construct_inner_layers idx (replicate (Z.to_nat (level_base L)) 0) = Ok nodes /\
    length nodes = Z.to_nat (level_base L) /\ tree_built nodes c L m.
Proof.
  pose proof tree_levels_small as HL7. pose proof (pw_pos L) as HpL.
  pose proof (pw_pos (L - 1)) as HpL1.
  assert (HwL : pw L = 16 * pw (L - 1)) by (rewrite <- pw_S; f_equal; lia).
  pose proof (level_base_small L ltac:(lia)) as HbL.
  pose proof (level_base_mono 1 L HL) as Hb1. change (level_base 1) with 16 in Hb1.
  assert (E1 : udiv (4 * Z.of_nat L) 4 = Ok (Z.of_nat L)).
  { unfold udiv. cbn [Z.eqb]. f_equal. rewrite Z.mul_comm. apply Z.div_mul. lia. }
  assert (E2 : pow16 (size_t_of (Z.of_nat L - 1)) = Ok (pw (L - 1))).
  { rewrite size_t_of_small by lia. unfold pow16.
    destruct (Z.leb_spec (Z.of_nat L - 1) 15); [|lia]. unfold pw. do 2 f_equal. lia. }
  assert (E3 : size_t_of (pw (L - 1) * 16) = pw L).
  { rewrite size_t_of_small by nia. lia. }
  assert (E4 : umod (size_ idx) (pw L) = Ok (size_ idx - pw L * m)).
  { unfold umod. destruct (Z.eqb_spec (pw L) 0); [lia|]. now rewrite tree_size_mod. }
  assert (E5 : size_t_of (size_ idx - 1 - (size_ idx - pw L * m)) = pw L * m - 1).
  { rewrite size_t_of_small by nia. lia. }
  unfold construct_inner_layers. rewrite Hnl, Hdepth.
  destruct (Z.eqb_spec (4 * Z.of_nat L) 0); [lia|]. cbn [negb ASSERT bind].
  rewrite E1. cbn [bind]. rewrite E2. cbn [bind]. rewrite E3, E4. cbn [bind]. rewrite E5.
  destruct (construct_cacheline_block_Ok idx Hcap ltac:(lia)
              (replicate (Z.to_nat (level_base L)) 0) 0%nat 0 (pw (L - 1) * m))
    as (nodes0 & E0 & Hlen0 & Hblock0 & _);
    try (rewrite ?length_replicate; lia); try nia.
  change (Z.of_nat 0) with 0 in E0.
  replace (0 + 16 * (pw (L - 1) * m) - 1) with (pw L * m - 1) in E0 by lia.
  rewrite E0. cbn [bind].
  rewrite length_replicate in Hlen0.
  rewrite (size_t_of_small (0 + 16)) by lia.
  match goal with
  | |- context [for_loop ?n ?a ?body ?s] =>
      destruct (for_loop_invariant
        (fun i (st : list Z * Z) =>
           exists k : nat, i = Z.of_nat k /\ (1 <= k <= L)%nat /\ snd st = level_base k /\
             length (fst st) = Z.to_nat (level_base L) /\ blocks_upto (fst st) c L m k)
        n a body s)
        as ([nodes cp] & E & k & Hk & HkL & Hcp & Hlen & Hblocks); [| |rewrite E]
  end.
  - exists 1%nat. cbn [fst snd]. repeat split; auto; try lia.
    intros i j Hi Hj. assert (i = 0)%nat by lia. subst i.
    change (pw 0) with 1 in Hj. assert (j = 0) by lia. subst j.
    rewrite Nat.sub_0_r, !Z.mul_0_r. exact Hblock0.
  - intros i [nodes cp] Hi (k & -> & HkL & Hcp & Hlen & Hblocks). cbn [fst snd] in *.
    subst cp.
    assert (Ep : pow16 (Z.of_nat k) = Ok (pw k)).
    { unfold pow16. destruct (Z.leb_spec (Z.of_nat k) 15); [reflexivity|lia]. }
    rewrite Ep. cbn [bind].
    assert (Es : udiv (size_t_of (pw L * m - 1 - 0 + 1)) (pw k) = Ok (pw (L - k) * m)).
    { rewrite size_t_of_small by nia. unfold udiv. pose proof (pw_pos k).
      destruct (Z.eqb_spec (pw k) 0); [lia|]. f_equal.
      replace (pw L * m - 1 - 0 + 1) with (pw L * m) by lia. apply tree_width. lia. }
    rewrite Es. cbn [bind].
    destruct (construct_level k nodes ltac:(lia) Hlen Hblocks) as (nodes' & E' & Hlen' & Hb').
    rewrite E'. eexists. split; [reflexivity|].
    exists (S k). cbn [fst snd]. repeat split; auto; lia.
  - cbn [bind]. exists nodes. split; [reflexivity|]. cbn [fst snd] in *.
    split; [exact Hlen|]. assert (k = L) by lia. subst k. exact Hblocks.
Qed.

Lemma find_inner_layers_bracket (key : Z) :
  StronglySorted key_le (container_ idx) ->
  int_key key -> int_keys (container_ idx) ->
  tree_built (inner_nodes_ idx) c L m ->
  length (inner_nodes_ idx) = Z.to_nat (level_base L) ->
  exists lo hi : nat,
    find_inner_layers idx key = Ok (Z.of_nat lo, Z.of_nat hi) /\
    (lo <= hi < length (container_ idx))%nat /\
    ((exists i r, c !! i = Some r /\ key_ r = key) ->
     exists i r, (lo <= i <= hi)%nat /\ c !! i = Some r /\ key_ r = key) /\
    (lo = hi -> m = 1).
Proof.
  intros Hsorted Ikey Ikeys Htree Hnodes.
  pose proof tree_levels_small as HL7. pose proof (pw_pos L) as HpL.
  pose proof (pw_pos (L - 1)) as HpL1.
  assert (HwL : pw L = 16 * pw (L - 1)) by (rewrite <- pw_S; f_equal; lia).
  pose proof (level_base_small L ltac:(lia)) as HbL.
  pose proof (level_base_mono 1 L HL) as Hb1. change (level_base 1) with 16 in Hb1.
  assert (E1 : udiv (4 * Z.of_nat L) 4 = Ok (Z.of_nat L)).
  { unfold udiv. cbn [Z.eqb]. f_equal. rewrite Z.mul_comm. apply Z.div_mul. lia. }
  assert (E2 : pow16 (size_t_of (Z.of_nat L - 1)) = Ok (pw (L - 1))).
  { rewrite size_t_of_small by lia. unfold pow16.
    destruct (Z.leb_spec (Z.of_nat L - 1) 15); [|lia]. unfold pw. do 2 f_equal. lia. }
  assert (E3 : size_t_of (pw (L - 1) * 16) = pw L).
  { rewrite size_t_of_small by nia. lia. }
  assert (E4 : umod (size_ idx) (pw L) = Ok (size_ idx - pw L * m)).
  { unfold umod. destruct (Z.eqb_spec (pw L) 0); [lia|]. now rewrite tree_size_mod. }
  assert (E5 : size_t_of (size_ idx - 1 - (size_ idx - pw L * m)) = pw L * m - 1).
  { rewrite size_t_of_small by nia. lia. }
  assert (Hlenc : Z.of_nat (length (container_ idx)) <= 2 ^ 30) by lia.
  assert (Hlenn : Z.of_nat (length (inner_nodes_ idx)) <= 2 ^ 62) by lia.
  unfold find_inner_layers. rewrite Hnl, Hdepth.
  destruct (Z.eqb_spec (4 * Z.of_nat L) 0); [lia|].
  rewrite E1. cbn [bind]. rewrite E2. cbn [bind]. rewrite E3.
  assert (Hblock0 : holds_block (inner_nodes_ idx) 0 (container_ idx) 0 (pw (L - 1) * m)).
  { pose proof (Htree 0%nat 0 ltac:(lia) ltac:(change (pw 0) with 1; lia)) as H.
    rewrite Nat.sub_0_r, !Z.mul_0_r in H. exact H. }
  assert (Hq0 : 1 <= pw (L - 1) * m) by (clear - Hm HpL1; nia).
  destruct (lookup_cacheline_block_bracket idx key Hsorted Hlenn Ikey Ikeys 0%nat 0 (pw (L - 1) * m)
              Hblock0 ltac:(lia) ltac:(lia) Hq0 ltac:(lia)) as (B0 & EB0 & HB0 & Hlo0 & Hhi0).
  change (Z.of_nat 0) with 0 in EB0. rewrite EB0. cbn [bind].
  rewrite (size_t_of_small (0 + 16)) by lia.
  change (pow16 1) with (Ok 16). cbn [bind].
  match goal with
  | |- context [for_loop ?n ?a ?body ?s] =>
      destruct (for_loop_invariant
        (fun i (st : Z * Z * Z) =>
           exists k : nat, i = Z.of_nat k /\ (1 <= k <= L)%nat /\
             snd (fst st) = level_base k /\ snd st = pw k /\
             0 <= fst (fst st) < pw k /\
             (1 <= fst (fst st) ->
              key_at c (pw (L - k) * m * fst (fst st) - 1) < key) /\
             (fst (fst st) < pw k - 1 ->
              key <= key_at c (pw (L - k) * m * (fst (fst st) + 1) - 1)))
        n a body s)
        as ([[B cp] nc] & E & k & Hk & HkL & Hcp & Hnc & HB & Hlo & Hhi); [| |rewrite E]
  end.
  - exists 1%nat. cbn [fst snd]. change (pw 1) with 16. repeat split; auto; try lia.
    + intros H1. specialize (Hlo0 H1).
      replace (pw (L - 1) * m * B0 - 1) with (0 + B0 * (pw (L - 1) * m) - 1) by ring.
      exact Hlo0.
    + intros H1. specialize (Hhi0 ltac:(lia)).
      replace (pw (L - 1) * m * (B0 + 1) - 1) with (0 + (B0 + 1) * (pw (L - 1) * m) - 1)
        by ring.
      exact Hhi0.
  - intros i [[B cp] nc] Hi (k & -> & HkL & Hcp & Hnc & HB & Hlo & Hhi).
    cbn [fst snd] in *. subst cp nc.
    pose proof (pw_pos k) as Hpk. pose proof (pw_pos (L - k - 1)) as Hq1.
    assert (Hw : pw (L - k) = 16 * pw (L - k - 1)) by (rewrite <- pw_S; f_equal; lia).
    pose proof (level_base_small (S k) ltac:(lia)) as Hb1'.
    pose proof (level_base_small k ltac:(lia)) as Hb0.
    pose proof (level_base_mono (S k) L ltac:(lia)) as Hmono.
    cbn [level_base] in Hmono, Hb1'.
    pose proof (pw_split k L ltac:(lia)) as Hsplit.
    pose proof (pw_mono (S k) L ltac:(lia)) as HpSk. rewrite pw_S in HpSk.
    rewrite (size_t_of_small (level_base k + B * 16)) by lia.
    replace (level_base k + B * 16)
      with (Z.of_nat (Z.to_nat (level_base k + 16 * B))) by lia.
    assert (Hrange : pw (L - k) * m * (B + 1) <= size_ idx).
    { assert (pw (L - k) * m * (B + 1) <= pw (L - k) * m * pw k).
      { apply Z.mul_le_mono_nonneg_l; [|lia]. pose proof (pw_pos (L - k)). nia. }
      nia. }
    assert (Hlhs0 : 0 <= pw (L - k) * m * B) by (pose proof (pw_pos (L - k)); nia).
    assert (Hq : 1 <= pw (L - k - 1) * m) by (clear - Hm Hq1; nia).
    assert (Hfit : pw (L - k) * m * B + 16 * (pw (L - k - 1) * m)
                   <= Z.of_nat (length (container_ idx))).
    { rewrite Hw in Hrange. lia. }
    destruct (lookup_cacheline_block_bracket idx key Hsorted Hlenn Ikey Ikeys
                (Z.to_nat (level_base k + 16 * B)) (pw (L - k) * m * B) (pw (L - k - 1) * m)
                (Htree k B ltac:(lia) HB) ltac:(lia) Hlhs0 Hq Hfit)
      as (b & Eb & Hb & Hlob & Hhib).
    rewrite Eb. cbn [bind].
    assert (Ep : pow16 (Z.of_nat k + 1) = Ok (pw (S k))).
    { unfold pow16. destruct (Z.leb_spec (Z.of_nat k + 1) 15); [|lia].
      unfold pw. do 2 f_equal. lia. }
    rewrite Ep. cbn [bind]. eexists. split; [reflexivity|].
    exists (S k). cbn [fst snd].
    rewrite (size_t_of_small (B * 16 + b)) by lia.
    rewrite (size_t_of_small (level_base k + 16 * pw k)) by lia.
    replace (L - S k)%nat with (L - k - 1)%nat by (clear; lia). rewrite pw_S.
    split; [lia|]. split; [lia|]. split; [reflexivity|]. split; [reflexivity|].
    split; [lia|]. split.
    + intros H1. destruct (Z_le_gt_dec 1 b) as [Hbpos|Hbpos].
      * specialize (Hlob Hbpos).
        replace (pw (L - k - 1) * m * (B * 16 + b) - 1)
          with (pw (L - k) * m * B + b * (pw (L - k - 1) * m) - 1) by (rewrite Hw; ring).
        exact Hlob.
      * assert (b = 0) by lia. subst b.
        replace (pw (L - k - 1) * m * (B * 16 + 0) - 1)
          with (pw (L - k) * m * B - 1) by (rewrite Hw; ring).
        apply Hlo. lia.
    + intros H1. destruct (Z_le_gt_dec b 14) as [Hb14|Hb14].
      * specialize (Hhib Hb14).
        replace (pw (L - k - 1) * m * (B * 16 + b + 1) - 1)
          with (pw (L - k) * m * B + (b + 1) * (pw (L - k - 1) * m) - 1)
          by (rewrite Hw; ring).
        exact Hhib.
      * assert (b = 15) by lia. subst b.
        replace (pw (L - k - 1) * m * (B * 16 + 15 + 1) - 1)
          with (pw (L - k) * m * (B + 1) - 1) by (rewrite Hw; ring).
        apply Hhi. lia.
  - cbn [fst snd bind] in *. assert (k = L) by lia. subst k cp nc.
    rewrite Nat.sub_diag in Hlo, Hhi. change (pw 0) with 1 in Hlo, Hhi.
    rewrite Z.mul_1_l in Hlo, Hhi.
    rewrite E4. cbn [bind]. rewrite E5.
    assert (Es : udiv (size_t_of (pw L * m - 1 - 0 + 1)) (pw L) = Ok m).
    { rewrite size_t_of_small by nia. unfold udiv.
      destruct (Z.eqb_spec (pw L) 0); [lia|]. f_equal.
      replace (pw L * m - 1 - 0 + 1) with (pw L * m) by lia.
      rewrite (tree_width L) by lia. rewrite Nat.sub_diag. change (pw 0) with 1. lia. }
    rewrite Es. cbn [bind].
    assert (HBm : 0 <= B * m /\ (B + 1) * m <= pw L * m) by (clear - HB Hm; nia).
    rewrite (size_t_of_small (pw L - 1)) by lia.
    rewrite (size_t_of_small (B * m)) by lia.
    rewrite (size_t_of_small ((B + 1) * m - 1)) by lia.
    rewrite (size_t_of_small (size_ idx - 1)) by lia.
    unfold int_of. rewrite !Z.mod_small by lia.
    assert (Hlower : forall i r, c !! i = Some r -> key_ r = key -> B * m <= Z.of_nat i).
    { intros i r Hr Hkey. destruct (Z_le_gt_dec (B * m) (Z.of_nat i)) as [|Hgt]; [assumption|].
      assert (HB1 : 1 <= B) by nia. specialize (Hlo HB1).
      destruct (key_at_lookup c (m * B - 1)) as (x & _ & Hx & Ex); [unfold c; nia|].
      rewrite Ex in Hlo.
      pose proof (sorted_lookup c i (Z.to_nat (m * B - 1)) r x Hsorted Hr Hx ltac:(nia)).
      lia. }
    destruct (Z.ltb_spec B (pw L - 1)) as [Hlt|Hge].
    + exists (Z.to_nat (B * m)), (Z.to_nat ((B + 1) * m - 1)).
      split; [do 2 f_equal; lia|]. split; [nia|]. split; [|nia].
      intros (i & r & Hr & Hkey). pose proof (Hlower i r Hr Hkey) as Hil.
      specialize (Hhi Hlt).
      destruct (Z_le_gt_dec (Z.of_nat i) ((B + 1) * m - 1)) as [Hle|Hgt].
      * exists i, r. split; [lia|auto].
      * destruct (key_at_lookup c (m * (B + 1) - 1)) as (x & _ & Hx & Ex); [unfold c; nia|].
        rewrite Ex in Hhi.
        pose proof (sorted_lookup c (Z.to_nat (m * (B + 1) - 1)) i x r Hsorted Hx Hr
                      ltac:(nia)).
        exists (Z.to_nat (m * (B + 1) - 1)), x. split; [nia|]. split; [exact Hx|lia].
    + exists (Z.to_nat (B * m)), (Z.to_nat (size_ idx - 1)).
      split; [do 2 f_equal; lia|]. split; [nia|]. split; [|nia].
      intros (i & r & Hr & Hkey). pose proof (Hlower i r Hr Hkey) as Hil.
      pose proof (lookup_lt_Some _ _ _ Hr). exists i, r. split; [unfold c in *; lia|auto].
Qed.

End TreeBuild.

(** ** Rebuilding with a tree *)

Lemma level_base_sum (L : nat) : exists s, pw L - 1 = 15 * s /\ level_base L = 16 * s /\ 0 <= s.
Proof.
  induction L as [|L (s & Hs & Hb & H0)].
  - exists 0. repeat split; reflexivity || lia.
  - exists (s + pw L). cbn [level_base]. rewrite pw_S. pose proof (pw_pos L). lia.
Qed.

Lemma pow2_pw (L : nat) : 2 ^ (4 * Z.of_nat L) = pw L.
Proof. unfold pw. rewrite Z.pow_mul_r by lia. reflexivity. Qed.

Lemma build_deep_enough (t : list KeyValue) (L : nat) (idx : FastIndex) :
  build t (4 * Z.of_nat L) = Ok idx -> pw L <= Z.of_nat (length t).
Proof.
  intros Hbuild. destruct (Z_le_gt_dec (pw L) (Z.of_nat (length t))) as [|Hgt]; [assumption|].
  exfalso. unfold build in Hbuild. apply bind_Ok in Hbuild as (idx0 & Hnew & Hre).
  apply FastIndex_new_geometry in Hnew as (Et & Enl & _).
  destruct (Z_le_gt_dec (4 * Z.of_nat L) 63) as [H63|H63].
  - rewrite reorganize_too_deep in Hre; [discriminate| |]; rewrite ?Enl, ?Et, ?pow2_pw; lia.
  - unfold reorganize in Hre. cbn [base_reorganize num_layers_] in Hre.
    rewrite Enl in Hre. unfold pow2_minus_one in Hre.
    destruct (Z.leb_spec (4 * Z.of_nat L) 53); [lia|].
    destruct (Z.leb_spec (4 * Z.of_nat L) 63); [lia|]. discriminate.
Qed.

Lemma build_tree_Ok (t : list KeyValue) (L : nat) :
  (1 <= L)%nat -> pw L <= Z.of_nat (length t) <= 2 ^ 30 ->
  exists idx,
    build t (4 * Z.of_nat L) = Ok idx /\
    tree_built (inner_nodes_ idx) (container_ idx) L (Z.of_nat (length t) / pw L) /\
    length (inner_nodes_ idx) = Z.to_nat (level_base L).
Proof.
  intros HL Hlen. pose proof (pw_pos L) as HpL.
  assert (HL7 : (L <= 7)%nat) by (apply pw_small; lia).
  destruct (level_base_sum L) as (s & Hs & Hb & Hs0).
  set (c := sort_by_key t).
  assert (Hc : length c = length t) by apply sort_by_key_length.
  set (m := Z.of_nat (length t) / pw L).
  assert (Hm : 1 <= m /\ pw L * m <= Z.of_nat (length t) < pw L * (m + 1)).
  { unfold m. split; [apply Z.div_le_lower_bound; lia|]. split.
    - apply Z.mul_div_le. lia.
    - rewrite Z.mul_add_distr_l, Z.mul_1_r.
      pose proof (Z.mod_pos_bound (Z.of_nat (length t)) (pw L) ltac:(lia)).
      pose proof (Z.div_mod (Z.of_nat (length t)) (pw L) ltac:(lia)). lia. }
  unfold build. rewrite FastIndex_new_spec. unfold derived_cacheline_depth.
  rewrite Z.mul_comm, Z.mod_mul by lia. cbn [Z.eqb bind].
  unfold reorganize. cbn [base_reorganize num_layers_ size_ container_ table_ptr_ key_min_
    key_max_ inner_nodes_ inner_size_ geometry_ cacheline_key_capacity_].
  fold c. rewrite Hc.
  unfold pow2_minus_one. destruct (Z.leb_spec (Z.of_nat L * 4) 53); [|lia].
  cbn [bind]. rewrite (Z.mul_comm (Z.of_nat L) 4), pow2_pw.
  destruct (Z.ltb_spec (pw L - 1) (Z.of_nat (length t))); [|lia]. cbn [ASSERT bind].
  destruct (at_index_in_range c 0) as [first Hfirst]; [lia|].
  destruct (at_index_in_range c (Z.of_nat (length t) - 1)) as [last Hlast]; [lia|].
  rewrite Hfirst. cbn [bind]. rewrite size_t_of_small by lia. rewrite Hlast. cbn [bind].
  destruct (Z.eqb_spec (4 * Z.of_nat L) 0); [lia|]. cbn [negb].
  unfold udiv. cbn [Z.eqb bind]. rewrite Hs, (Z.mul_comm 15 s), Z.div_mul by lia.
  unfold CACHELINE_SIZE, sizeof_KeyT. rewrite size_t_of_small by lia.
  replace (s * 64 / 4) with (level_base L) by (rewrite Hb; apply Z.div_unique_exact; lia).
  match goal with
  | |- context [construct_inner_layers ?i _] => set (idx1 := i)
  end.
  destruct (construct_inner_layers_Ok idx1 L m) as (nodes & E & Hnl & Htree);
    try reflexivity; try (cbn; lia).
  rewrite E. cbn [bind]. eexists. split; [reflexivity|].
  cbn [inner_nodes_ container_]. split; [exact Htree | exact Hnl].
Qed.

Lemma find_built (t : list KeyValue) (L : nat) (key : Z) (idx : FastIndex) :
  build t (4 * Z.of_nat L) = Ok idx -> Z.of_nat (length t) <= 2 ^ 30 ->
  int_key key -> int_keys t ->
  exists l, find idx key [] = Ok l /\
    (complete_or_last (container_ idx) key l \/
     (scan_equal (container_ idx) key = [] /\ (exists r, r ∈ container_ idx /\ l = [value_ r]) /\
      (1 <= L)%nat /\ Z.of_nat (length t) < 2 * pw L)).
Proof.
  intros Hbuild Hlen Ikey It.
  destruct (build_rebuilt t _ idx Hbuild Hlen) as (Hwf & Hperm & Hnl & Hg).
  assert (Ikeys : int_keys (container_ idx)).
  { unfold int_keys. now rewrite Hperm. }
  destruct (Nat.eq_dec L 0%nat) as [->|HL].
  { destruct (find_rebuilt_without_tree idx key Hwf Hnl) as (l & E & Hl). eauto. }
  assert (Htriv : forall l, find idx key [] = Ok l /\ l = scan_equal (container_ idx) key ->
            exists l, find idx key [] = Ok l /\
              (complete_or_last (container_ idx) key l \/
               (scan_equal (container_ idx) key = [] /\
                (exists r, r ∈ container_ idx /\ l = [value_ r]) /\
                (1 <= L)%nat /\ Z.of_nat (length t) < 2 * pw L))).
  { intros l [E ->]. eexists. split; [exact E|]. left. now left. }
  destruct (Z_lt_ge_dec key (key_min_ idx)) as [H1|H1];
    [destruct (find_rebuilt_trivial idx key Hwf) as (l & El); [auto|]; eauto|].
  destruct (Z_lt_ge_dec (key_max_ idx) key) as [H2|H2];
    [destruct (find_rebuilt_trivial idx key Hwf) as (l & El); [right; left; lia|]; eauto|].
  destruct (Z.eq_dec (key_min_ idx) (key_max_ idx)) as [H3|H3];
    [destruct (find_rebuilt_trivial idx key Hwf) as (l & El); [auto|]; eauto|].
  pose proof (build_deep_enough t L idx Hbuild) as Hdeep.
  destruct (build_tree_Ok t L ltac:(lia) ltac:(lia)) as (idx' & Hbuild' & Htree & Hnodes).
  rewrite Hbuild in Hbuild'. injection Hbuild' as <-.
  pose proof Hwf as (Hsize & Hsmall & Hsorted & _ & _).
  assert (Hl : length (container_ idx) = length t) by now rewrite Hperm.
  pose proof (pw_pos L) as HpL.
  set (m := Z.of_nat (length t) / pw L) in *.
  assert (Hm : 1 <= m /\ pw L * m <= size_ idx < pw L * (m + 1)).
  { rewrite Hsize, Hl. unfold m. split; [apply Z.div_le_lower_bound; lia|]. split.
    - apply Z.mul_div_le. lia.
    - rewrite Z.mul_add_distr_l, Z.mul_1_r.
      pose proof (Z.mod_pos_bound (Z.of_nat (length t)) (pw L) ltac:(lia)).
      pose proof (Z.div_mod (Z.of_nat (length t)) (pw L) ltac:(lia)). lia. }
  destruct (find_inner_layers_bracket idx L m) with (key := key)
    as (lo & hi & Erange & Hlohi & Hbracket & Hunit);
    try (rewrite Hg; reflexivity); try lia; auto.
  destruct (find_of_bracket idx key Hwf lo hi ltac:(lia) H3 Erange Hlohi Hbracket)
    as (l & El & [Hc|(Heq & Habs & r & Hr & ->)]).
  - exists l. auto.
  - exists [value_ r]. split; [exact El|]. right. split; [exact Habs|]. split.
    + exists r. split; [eapply list_elem_of_lookup_2, Hr | reflexivity].
    + split; [lia|]. specialize (Hunit Heq). rewrite Hsize, Hl in Hm. lia.
Qed.

Lemma reorganize_again (t : list KeyValue) (nl : Z) (idx : FastIndex) :
  build t nl = Ok idx -> reorganize idx = Ok idx.
Proof.
  intros Hbuild. unfold build in Hbuild. apply bind_Ok in Hbuild as (idx0 & Hnew & Hre).
  rewrite FastIndex_new_spec in Hnew. destruct (_ =? 0); [|discriminate].
  injection Hnew as <-. revert Hre. unfold reorganize.
  cbn [base_reorganize num_layers_ size_ container_ table_ptr_ key_min_ key_max_
         inner_nodes_ inner_size_ geometry_].
  intros Hre.
  repeat match type of Hre with
  | bind ?x _ = Ok _ => destruct x eqn:?; cbn [bind] in Hre; try discriminate
  end.
  destruct (negb (nl =? 0)) eqn:Hnz.
  - repeat match type of Hre with
    | bind ?x _ = Ok _ => destruct x eqn:?; cbn [bind] in Hre; try discriminate
    end.
    injection Hre as <-.
    cbn [base_reorganize num_layers_ size_ container_ table_ptr_ key_min_ key_max_
           inner_nodes_ inner_size_ geometry_].
    repeat match goal with
    | H : ?x = Ok _ |- context [bind ?x _] => rewrite H; cbn [bind]
    end.
    rewrite Hnz.
    repeat match goal with
    | H : ?x = Ok _ |- context [bind ?x _] => rewrite H; cbn [bind]
    end.
    unfold construct_inner_layers, construct_cacheline_block, construct_simd_block in *.
    cbn [num_layers_ size_ container_ geometry_] in *.
    repeat match goal with
    | H : ?x = Ok _ |- context [bind ?x _] => rewrite H; cbn [bind]
    end.
    reflexivity.
  - injection Hre as <-.
    cbn [base_reorganize num_layers_ size_ container_ table_ptr_ key_min_ key_max_
           inner_nodes_ inner_size_ geometry_].
    repeat match goal with
    | H : ?x = Ok _ |- context [bind ?x _] => rewrite H; cbn [bind]
    end.
    rewrite Hnz. reflexivity.
Qed.

(** ** Statements *)

Lemma build_without_tree_Ok (t : list KeyValue) :
  1 <= Z.of_nat (length t) <= 2 ^ 30 ->
  exists idx, build t 0 = Ok idx /\ inner_nodes_ idx = [].
Proof.
  intros Hlen. set (c := sort_by_key t).
  assert (Hc : length c = length t) by apply sort_by_key_length.
  unfold build. rewrite FastIndex_new_spec.
  change (0 mod derived_cacheline_depth =? 0) with true. cbn [bind].
  unfold reorganize. cbn [base_reorganize num_layers_ size_ container_ table_ptr_ key_min_
    key_max_ inner_nodes_ inner_size_ geometry_].
  fold c. rewrite Hc. change (pow2_minus_one 0) with (Ok 0). cbn [bind].
  destruct (Z.ltb_spec 0 (Z.of_nat (length t))); [|lia]. cbn [ASSERT bind].
  destruct (at_index_in_range c 0) as [first Hfirst]; [lia|].
  destruct (at_index_in_range c (Z.of_nat (length t) - 1)) as [last Hlast]; [lia|].
  rewrite Hfirst. cbn [bind]. rewrite size_t_of_small by lia. rewrite Hlast. cbn [bind].
  cbn [Z.eqb negb]. eexists. split; reflexivity.
Qed.

(** X1: for every table and requested depth the constructor either stops
    on its last assertion or returns an index holding the table handle and
    the depth, an empty container, and the geometry: 3 keys and depth 2 per
    vector, 15 keys, depth 4 and 5 vector blocks per cache line, 255 keys,
    depth 8 and 85 vector blocks per page.  It returns exactly when the
    depth is a multiple of 4. *)
Theorem constructor_geometry (t : list KeyValue) (nl : Z) :
  FastIndex_new t nl =
  if nl mod 4 =? 0
  then Ok (mkFastIndex t [] 0 nl 0 0 [] 0 (mkGeometry 3 2 15 4 5 255 8 85))
  else Fatal.
Proof. apply FastIndex_new_spec. Qed.

(** X2: after a successful construction and rebuild of a table of at most
    2^30 records, the container is a sorted permutation of the table,
    [size_] is its number of records and is at least 1, the table handle
    and the depth are kept, [key_min_] and [key_max_] are the keys of the
    first and of the last record of the container, and every key of the
    table lies between them. *)
Theorem rebuild_invariants (t : list KeyValue) (nl : Z) (idx : FastIndex) :
  build t nl = Ok idx -> Z.of_nat (length t) <= 2 ^ 30 ->
  container_ idx ≡ₚ t /\
  StronglySorted key_le (container_ idx) /\
  size_ idx = Z.of_nat (length t) /\ 1 <= size_ idx /\
  table_ptr_ idx = t /\ num_layers_ idx = nl /\
  (exists a b, head (container_ idx) = Some a /\ last (container_ idx) = Some b /\
               key_min_ idx = key_ a /\ key_max_ idx = key_ b) /\
  (forall r, r ∈ t -> key_min_ idx <= key_ r <= key_max_ idx).
Proof.
  intros Hbuild Hlen.
  destruct (build_rebuilt t nl idx Hbuild Hlen) as (Hwf & Hperm & Hnl & _).
  pose proof Hwf as (Hsize & Hsmall & Hsorted & (a & Ha & Hmin) & (b & Hb & Hmax)).
  split; [exact Hperm|]. split; [exact Hsorted|].
  split; [now rewrite Hsize, Hperm|]. split; [lia|]. split.
  { unfold build in Hbuild. apply bind_Ok in Hbuild as (idx0 & Hnew & Hre).
    apply FastIndex_new_geometry in Hnew as (Et & _). apply reorganize_Ok in Hre as (-> & _).
    exact Et. }
  split; [exact Hnl|]. split; [exists a, b; auto|].
  intros r Hr. apply rebuilt_key_bounds; [exact Hwf|]. now rewrite Hperm.
Qed.

Lemma rebuild_invariants_witness :
  exists idx, build scenario_table 0 = Ok idx /\
    size_ idx = 8 /\ key_min_ idx = 1 /\ key_max_ idx = 12 /\
    StronglySorted key_le (container_ idx).
Proof.
  eexists. split; [reflexivity|].
  match goal with |- size_ ?i = _ /\ _ =>
    destruct (rebuild_invariants scenario_table 0 i eq_refl)
      as (_ & Hs & _)
  end.
  - vm_compute. discriminate.
  - repeat split; try reflexivity. exact Hs.
Defined.

(** X3: for a table of at most 2^30 records and a depth [4 * L],
    construction followed by a rebuild returns an index exactly when the
    table has at least [16^L] records; in particular an empty table is
    never indexed. *)
Theorem build_succeeds_iff (t : list KeyValue) (L : nat) :
  Z.of_nat (length t) <= 2 ^ 30 ->
  (exists idx, build t (4 * Z.of_nat L) = Ok idx) <-> 16 ^ Z.of_nat L <= Z.of_nat (length t).
Proof.
  intros Hlen. change (16 ^ Z.of_nat L) with (pw L). split.
  - intros [idx Hbuild]. eapply build_deep_enough, Hbuild.
  - intros Hdeep. destruct (Nat.eq_dec L 0%nat) as [->|HL].
    + change (pw 0) with 1 in Hdeep.
      destruct (build_without_tree_Ok t ltac:(lia)) as (idx & E & _). eauto.
    + destruct (build_tree_Ok t L ltac:(lia) ltac:(lia)) as (idx & E & _). eauto.
Qed.

Lemma build_succeeds_iff_witness :
  (exists idx, build even_keys_table 4 = Ok idx) /\
  ~ (exists idx, build scenario_table 4 = Ok idx).
Proof.
  split.
  - apply (build_succeeds_iff even_keys_table 1); vm_compute; discriminate.
  - intros H. apply (build_succeeds_iff scenario_table 1) in H.
    + vm_compute in H. now apply H.
    + vm_compute. discriminate.
Defined.

(** X4: a rebuild of an index that was just built, over the same table,
    returns the same index: same container, bounds and inner-node buffer. *)
Theorem rebuild_is_idempotent (t : list KeyValue) (nl : Z) (idx : FastIndex) :
  build t nl = Ok idx -> reorganize idx = Ok idx.
Proof. apply reorganize_again. Qed.

Lemma rebuild_is_idempotent_witness :
  exists idx, build even_keys_table 4 = Ok idx /\ reorganize idx = Ok idx.
Proof.
  eexists. split; [reflexivity|].
  apply (rebuild_is_idempotent even_keys_table 4). reflexivity.
Defined.

(** X5: whatever the index and the range, an offset returned by the
    binary search is either [size_], the "not found" value, or an offset of
    the range whose record has the key that was searched. *)
Theorem binary_search_sound (idx : FastIndex) (key b e o : Z) :
  find_internal idx key b e = Ok o ->
  o = size_ idx \/
  (b <= o <= e /\ exists r, at_index (container_ idx) o = Ok r /\ key_ r = key).
Proof. apply find_internal_sound. Qed.

Lemma binary_search_sound_witness :
  3 = size_ bounds_example \/
  (0 <= 3 <= 7 /\ exists r, at_index (container_ bounds_example) 3 = Ok r /\ key_ r = 5).
Proof. apply (binary_search_sound bounds_example 5 0 7 3). reflexivity. Defined.

(** X6: on a rebuilt index of at most 2^30 records, the binary search
    over a range [b, e] inside the table returns the offset of a record with
    the key when the range has one, and returns [size_] when it has none. *)
Theorem binary_search_complete (t : list KeyValue) (nl : Z) (idx : FastIndex) (key b e : Z) :
  build t nl = Ok idx -> Z.of_nat (length t) <= 2 ^ 30 ->
  0 <= b -> e < Z.of_nat (length t) ->
  (exists o r, find_internal idx key b e = Ok o /\ b <= o <= e /\
               at_index (container_ idx) o = Ok r /\ key_ r = key) \/
  (find_internal idx key b e = Ok (size_ idx) /\
   forall i r, b <= i <= e -> at_index (container_ idx) i = Ok r -> key_ r <> key).
Proof.
  intros Hbuild Hlen Hb He.
  destruct (build_rebuilt t nl idx Hbuild Hlen) as (Hwf & Hperm & _).
  pose proof Hwf as (Hsize & _).
  assert (Hl : length (container_ idx) = length t) by now rewrite Hperm.
  unfold find_internal.
  destruct (find_internal_rec_sorted idx key Hwf (Z.to_nat (e - b + 1)) b e)
    as [(o & r & E & Ho & Hr & Hk)|[E Habs]]; try lia.
  - left. exists (Z.of_nat o), r. repeat split; auto; try lia. now apply at_index_nat.
  - right. split; [exact E|]. intros i r Hi Hr.
    apply at_index_Ok in Hr as [Hi0 Hr]. apply (Habs (Z.to_nat i) r); [lia | exact Hr].
Qed.

Lemma binary_search_complete_witness :
  exists idx, build scenario_table 0 = Ok idx /\
    ((exists o r, find_internal idx 7 0 7 = Ok o /\ 0 <= o <= 7 /\
                  at_index (container_ idx) o = Ok r /\ key_ r = 7) \/
     (find_internal idx 7 0 7 = Ok (size_ idx) /\
      forall i r, 0 <= i <= 7 -> at_index (container_ idx) i = Ok r -> key_ r <> 7)).
Proof.
  eexists. split; [reflexivity|].
  apply (binary_search_complete scenario_table 0 _ 7 0 7 eq_refl);
    vm_compute; first [discriminate | reflexivity].
Defined.

(** X7: on an index built with depth [4 * L] over a table of at most 2^30
    records whose keys are values of [int], and for a key that is a value
    of [int], [find] on an empty vector returns, and its result is the
    multiset of the linear scan, with two exceptions: for the largest key of
    the table the reference of the last record may be missing; and for a
    key that is absent, when the tree is on and the table has fewer than
    [2 * 16^L] records, the result may be the reference of one record of
    another key. *)
Theorem find_against_scan (t : list KeyValue) (L : nat) (key : Z) (idx : FastIndex) :
  build t (4 * Z.of_nat L) = Ok idx -> Z.of_nat (length t) <= 2 ^ 30 ->
  int_key key -> int_keys t ->
  exists l, find idx key [] = Ok l /\
    (l ≡ₚ scan_equal t key \/
     (key = key_max_ idx /\
      exists x, last (container_ idx) = Some x /\ key_ x = key /\
                l ++ [value_ x] ≡ₚ scan_equal t key) \/
     (scan_equal t key = [] /\ (exists r, r ∈ t /\ l = [value_ r]) /\
      (1 <= L)%nat /\ Z.of_nat (length t) < 2 * 16 ^ Z.of_nat L)).
Proof.
  intros Hbuild Hlen Ikey It.
  destruct (build_rebuilt t _ idx Hbuild Hlen) as (Hwf & Hperm & _).
  pose proof (scan_equal_perm _ _ key Hperm) as Hscan.
  destruct (find_built t L key idx Hbuild Hlen Ikey It)
    as (l & E & [[Hl|(x & Hx & Hk & Hl)]|(Habs & (r & Hr & ->) & HL & Hw)]).
  - exists l. split; [exact E|]. left. now rewrite Hl.
  - exists l. split; [exact E|]. right. left.
    destruct Hwf as (_ & _ & _ & _ & (b & Hb & Hmax)).
    split; [congruence|]. exists x. rewrite Hl. auto.
  - eexists. split; [exact E|]. right. right.
    split; [apply Permutation_nil_r; now rewrite <- Hscan, Habs|].
    split; [|split; assumption]. exists r. split; [now rewrite <- Hperm | reflexivity].
Qed.

Lemma find_against_scan_witness :
  exists idx l, build even_keys_table (4 * Z.of_nat 1) = Ok idx /\ find idx 6 [] = Ok l /\
    (l ≡ₚ scan_equal even_keys_table 6 \/
     (6 = key_max_ idx /\
      exists x, last (container_ idx) = Some x /\ key_ x = 6 /\
                l ++ [value_ x] ≡ₚ scan_equal even_keys_table 6) \/
     (scan_equal even_keys_table 6 = [] /\ (exists r, r ∈ even_keys_table /\ l = [value_ r]) /\
      (1 <= 1)%nat /\ Z.of_nat (length even_keys_table) < 2 * 16 ^ Z.of_nat 1)).
Proof.
  eexists.
  match goal with |- exists l, build _ _ = Ok ?i /\ _ =>
    destruct (find_against_scan even_keys_table 1 6 i) as (l & E & H)
  end.
  - vm_compute. reflexivity.
  - vm_compute. discriminate.
  - unfold int_key. lia.
  - repeat (constructor; [unfold int_key; cbn; lia|]). constructor.
  - exists l. split; [reflexivity|]. split; [exact E | exact H].
Defined.

(** X8: when the key and the three fences read by the selector are values
    of [int] and the fences are ordered, [fence[1] <= fence[0] <= fence[2]],
    the branch id is 0 for a key up to [fence[1]], 1 up to [fence[0]], 2 up
    to [fence[2]] and 3 above. *)
Theorem selector_with_ordered_fences (idx : FastIndex) (key pos f0 f1 f2 f3 : Z) :
  mm_loadu_si128 (inner_nodes_ idx) pos = Ok (lanes f0 f1 f2 f3) ->
  f1 <= f0 <= f2 ->
  int_key key -> int_key f0 -> int_key f1 -> int_key f2 ->
  lookup_simd_block idx key pos
  = Ok (if key <=? f1 then 0 else if key <=? f0 then 1 else if key <=? f2 then 2 else 3).
Proof.
  intros Hload Hord Ik I0 I1 I2.
  rewrite (lookup_simd_block_mask idx key pos f0 f1 f2 f3 Hload Ik I0 I1 I2).
  unfold comparison_mask.
  destruct (Z.gtb_spec key f0), (Z.gtb_spec key f1), (Z.gtb_spec key f2),
    (Z.leb_spec key f1), (Z.leb_spec key f0), (Z.leb_spec key f2);
    try (exfalso; lia); reflexivity.
Qed.

Lemma selector_with_ordered_fences_witness :
  lookup_simd_block selector_example 7 0 = Ok 1.
Proof.
  apply (selector_with_ordered_fences selector_example 7 0 14 6 22 2 eq_refl);
    unfold int_key; lia.
Defined.

(** X9: over a range of [16 * q] records that starts at [lhs], the
    cache-line builder writes 15 slots from [current_pos]: slot [d]
    receives the key of the last record of the [slot_boundary[d]]-th
    sixteenth of the range; the 16th slot of the cache line and every other
    slot of the buffer keep their value, and the buffer keeps its length. *)
Theorem cacheline_block_layout (idx : FastIndex) (nodes : list Z) (pos : nat) (lhs q : Z) :
  simd_key_capacity_ (geometry_ idx) = 3 ->
  Z.of_nat (length (container_ idx)) <= 2 ^ 30 -> Z.of_nat (length nodes) <= 2 ^ 62 ->
  0 <= lhs -> 1 <= q -> lhs + 16 * q <= Z.of_nat (length (container_ idx)) ->
  (pos + 14 < length nodes)%nat ->
  exists nodes',
    construct_cacheline_block idx nodes (Z.of_nat pos) lhs (lhs + 16 * q - 1) = Ok nodes' /\
    length nodes' = length nodes /\
    (forall (d : nat) (j : Z), slot_boundary !! d = Some j ->
       nodes' !! (pos + d)%nat = Some (key_at (container_ idx) (lhs + j * q - 1))) /\
    (forall i, (i < pos \/ pos + 15 <= i)%nat -> nodes' !! i = nodes !! i).
Proof.
  intros Hcap Hlen Hnodes Hlhs Hq Hfit Hpos.
  apply (construct_cacheline_block_Ok idx Hcap Hlen nodes pos lhs q Hlhs Hq Hfit Hpos Hnodes).
Qed.

Lemma cacheline_block_layout_witness :
  exists nodes',
    construct_cacheline_block fence_example (inner_nodes_ fence_example) 0 0 15 = Ok nodes' /\
    nodes' !! 0%nat = Some 80 /\ nodes' !! 3%nat = Some 20 /\ nodes' !! 14%nat = Some 150 /\
    nodes' !! 15%nat = Some 0.
Proof.
  destruct (cacheline_block_layout fence_example (inner_nodes_ fence_example) 0 0 1)
    as (nodes' & E & _ & Hslots & Hframe);
    try reflexivity; try (vm_compute; discriminate); try (simpl; lia).
  exists nodes'. split; [exact E|].
  split; [apply (Hslots 0%nat 8 eq_refl)|].
  split; [apply (Hslots 3%nat 2 eq_refl)|].
  split; [apply (Hslots 14%nat 15 eq_refl)|].
  rewrite (Hframe 15%nat) by lia. reflexivity.
Defined.

(** X10: on a cache-line block that holds the fences of a range of a
    sorted container, with the key and the keys of the container values of
    [int], the two-step lookup returns a branch id [B] between 0
    and 15 such that the last key of the sixteenth before [B] is below the
    key (when [B >= 1]) and the last key of the sixteenth [B] is not below
    the key (when [B <= 14]). *)
Theorem cacheline_block_lookup (idx : FastIndex) (key : Z) (pos : nat) (lhs q : Z) :
  StronglySorted key_le (container_ idx) ->
  Z.of_nat (length (inner_nodes_ idx)) <= 2 ^ 62 ->
  int_key key -> int_keys (container_ idx) ->
  holds_block (inner_nodes_ idx) pos (container_ idx) lhs q ->
  (pos + 15 < length (inner_nodes_ idx))%nat ->
  0 <= lhs -> 1 <= q -> lhs + 16 * q <= Z.of_nat (length (container_ idx)) ->
  exists B,
    lookup_cacheline_block idx key (Z.of_nat pos) = Ok B /\ 0 <= B <= 15 /\
    (1 <= B -> key_at (container_ idx) (lhs + B * q - 1) < key) /\
    (B <= 14 -> key <= key_at (container_ idx) (lhs + (B + 1) * q - 1)).
Proof.
  intros Hsorted Hnodes Ikey Ikeys Hblock Hpos Hlhs Hq Hfit.
  apply (lookup_cacheline_block_bracket idx key Hsorted Hnodes Ikey Ikeys
           pos lhs q Hblock Hpos Hlhs Hq Hfit).
Qed.

Lemma tree_example_sorted : StronglySorted key_le (container_ tree_example).
Proof. repeat constructor; unfold key_le; simpl; lia. Qed.

Lemma tree_example_ints : int_keys (container_ tree_example).
Proof. repeat (constructor; [unfold int_key; cbn; lia|]). constructor. Qed.

Lemma tree_example_block : holds_block (inner_nodes_ tree_example) 0 (container_ tree_example) 0 1.
Proof.
  intros d j Hd.
  do 15 (destruct d as [|d]; [injection Hd as <-; reflexivity|]). discriminate.
Qed.

Lemma cacheline_block_lookup_witness :
  exists B, lookup_cacheline_block tree_example 5 0 = Ok B /\ 0 <= B <= 15.
Proof.
  destruct (cacheline_block_lookup tree_example 5 0 0 1 tree_example_sorted)
    as (B & E & HB & _); try (simpl; lia); try (unfold int_key; lia);
    [exact tree_example_ints | exact tree_example_block|].
  exists B. split; [exact E | exact HB].
Defined.

(** X11: for a depth [4 * L] with [L >= 1] and a table of [16^L] to 2^30
    records, the rebuild succeeds, the inner-node buffer has
    [16 * (16^L - 1) / 15] slots, and every block of every level is in
    place: block [j] of level [i] is at slot [level_base i + 16 * j] and
    holds the fences of the [j]-th range of [16^(L-i) * m] records, with
    [m] the table size divided by [16^L]. *)
Theorem tree_layout (t : list KeyValue) (L : nat) :
  (1 <= L)%nat -> 16 ^ Z.of_nat L <= Z.of_nat (length t) <= 2 ^ 30 ->
  exists idx,
    build t (4 * Z.of_nat L) = Ok idx /\
    15 * Z.of_nat (length (inner_nodes_ idx)) = 16 * (16 ^ Z.of_nat L - 1) /\
    tree_built (inner_nodes_ idx) (container_ idx) L (Z.of_nat (length t) / 16 ^ Z.of_nat L).
Proof.
  intros HL Hlen. change (16 ^ Z.of_nat L) with (pw L) in *.
  destruct (build_tree_Ok t L HL Hlen) as (idx & E & Htree & Hnodes).
  exists idx. split; [exact E|]. split; [|exact Htree].
  pose proof (level_base_bound L) as [H0 H15]. rewrite Hnodes. lia.
Qed.

Lemma tree_layout_witness :
  exists idx,
    build even_keys_table (4 * Z.of_nat 1) = Ok idx /\
    15 * Z.of_nat (length (inner_nodes_ idx)) = 16 * (16 ^ Z.of_nat 1 - 1) /\
    tree_built (inner_nodes_ idx) (container_ idx) 1
      (Z.of_nat (length even_keys_table) / 16 ^ Z.of_nat 1).
Proof.
  apply (tree_layout even_keys_table 1); [lia|]. vm_compute. split; discriminate.
Defined.

(** X12: on an index built over a table of at most 2^30 records, with the
    key and the keys of the table values of [int], the tree lookup returns an offset range that lies inside the table, and, when
    the table has a record with the key, the range contains the offset of
    such a record. *)
Theorem tree_lookup_range (t : list KeyValue) (L : nat) (key : Z) (idx : FastIndex) :
  build t (4 * Z.of_nat L) = Ok idx -> Z.of_nat (length t) <= 2 ^ 30 ->
  int_key key -> int_keys t ->
  exists lo hi,
    find_inner_layers idx key = Ok (lo, hi) /\
    0 <= lo <= hi /\ hi < Z.of_nat (length t) /\
    ((exists r, r ∈ t /\ key_ r = key) ->
     exists i r, lo <= i <= hi /\ at_index (container_ idx) i = Ok r /\ key_ r = key).
Proof.
  intros Hbuild Hlen Ikey It.
  destruct (build_rebuilt t _ idx Hbuild Hlen) as (Hwf & Hperm & Hnl & Hg).
  assert (Ikeys : int_keys (container_ idx)).
  { unfold int_keys. now rewrite Hperm. }
  pose proof Hwf as (Hsize & Hsmall & Hsorted & _ & _).
  assert (Hl : length (container_ idx) = length t) by now rewrite Hperm.
  assert (Hin : (exists r, r ∈ t /\ key_ r = key) ->
                exists i r, container_ idx !! i = Some r /\ key_ r = key).
  { intros (r & Hr & Hk). rewrite <- Hperm in Hr.
    apply list_elem_of_lookup_1 in Hr as [i Hi]. eauto. }
  destruct (Nat.eq_dec L 0%nat) as [->|HL].
  - exists 0, (Z.of_nat (length t) - 1). split.
    + unfold find_inner_layers. rewrite Hnl. cbn [Z.eqb Z.mul].
      rewrite size_t_of_small by lia. unfold int_of. rewrite !Z.mod_small by lia.
      f_equal. f_equal; lia.
    + split; [lia|]. split; [lia|]. intros H. destruct (Hin H) as (i & r & Hi & Hk).
      pose proof (lookup_lt_Some _ _ _ Hi). exists (Z.of_nat i), r.
      split; [lia|]. split; [now apply at_index_nat | exact Hk].
  - pose proof (build_deep_enough t L idx Hbuild) as Hdeep.
    destruct (build_tree_Ok t L ltac:(lia) ltac:(lia)) as (idx' & Hbuild' & Htree & Hnodes).
    rewrite Hbuild in Hbuild'. injection Hbuild' as <-.
    pose proof (pw_pos L) as HpL.
    set (m := Z.of_nat (length t) / pw L) in *.
    assert (Hm : 1 <= m /\ pw L * m <= size_ idx < pw L * (m + 1)).
    { rewrite Hsize, Hl. unfold m. split; [apply Z.div_le_lower_bound; lia|]. split.
      - apply Z.mul_div_le. lia.
      - rewrite Z.mul_add_distr_l, Z.mul_1_r.
        pose proof (Z.mod_pos_bound (Z.of_nat (length t)) (pw L) ltac:(lia)).
        pose proof (Z.div_mod (Z.of_nat (length t)) (pw L) ltac:(lia)). lia. }
    destruct (find_inner_layers_bracket idx L m) with (key := key)
      as (lo & hi & Erange & Hlohi & Hbracket & _);
      try (rewrite Hg; reflexivity); try lia; auto.
    exists (Z.of_nat lo), (Z.of_nat hi). split; [exact Erange|].
    split; [lia|]. split; [lia|]. intros H.
    destruct (Hbracket (Hin H)) as (i & r & Hi & Hr & Hk).
    exists (Z.of_nat i), r. split; [lia|]. split; [now apply at_index_nat | exact Hk].
Qed.

Lemma tree_lookup_range_witness :
  exists idx lo hi,
    build even_keys_table 4 = Ok idx /\ find_inner_layers idx 6 = Ok (lo, hi) /\
    0 <= lo <= hi /\ hi < 16.
Proof.
  eexists.
  match goal with |- exists lo hi, build _ _ = Ok ?i /\ _ =>
    destruct (tree_lookup_range even_keys_table 1 6 i eq_refl) as (lo & hi & E & H1 & H2 & _)
  end.
  - vm_compute. discriminate.
  - unfold int_key. lia.
  - repeat (constructor; [unfold int_key; cbn; lia|]). constructor.
  - exists lo, hi. split; [reflexivity|]. split; [exact E|]. split; [exact H1 | exact H2].
Defined.

(** X13: the binary search computes its midpoint as
    [(offset_begin + offset_end) / 2] in [int]; on a non-empty range whose
    two ends add up to 2^31 or more, that sum overflows, which is undefined
    behaviour.  This is why the statements above stop at 2^30 records. *)
Theorem binary_search_midpoint_overflow (idx : FastIndex) (key b e : Z) :
  b <= e -> 2 ^ 31 <= b + e -> find_internal idx key b e = Undefined.
Proof.
  intros Hbe Hsum. unfold find_internal.
  destruct (Z.to_nat (e - b + 1)) as [|fuel] eqn:Hfuel; [lia|].
  cbn [find_internal_rec]. destruct (Z.gtb_spec b e); [lia|].
  unfold int_arith. destruct (Z.ltb_spec (b + e) (2 ^ 31)); [lia|].
  now rewrite andb_false_r.
Qed.

Lemma binary_search_midpoint_overflow_witness :
  find_internal bounds_example 5 (2 ^ 30) (2 ^ 30) = Undefined.
Proof. apply (binary_search_midpoint_overflow bounds_example 5 (2 ^ 30) (2 ^ 30)); lia. Defined.
